(** * ANSI escape handling of alot: tokenizer, stripper and SGR interpreter

    Shallow embedding of [alot/utils/ansi.py] (the escape tokenizer and
    [strip_ansi_escapes]) and of [alot/widgets/ansi.py]
    ([parse_escapes_to_urwid] with its three closures), followed by the
    properties established about them.

    Conventions.
    - A Python [str] is a [string]; its characters are [ascii] values.  Every
      character class of the source is a set of ASCII characters, so a
      character outside ASCII behaves like any other character that belongs
      to no class.
    - An index is a [nat]; the [-1] of [str.find] and the [(None, -1)] of
      [parse_csi] are [None].
    - The [while True] loop of the generator runs on fuel; [None] means the
      fuel ran out.  [parse_loop_total] shows that the fuel handed over by
      [parse_ansi_escapes] always suffices.
    - A Python exception raised by the modelled code ([KeyError],
      [TypeError], [IndexError], and the [AttrSpecError] of
      [urwid.AttrSpec]) is [None] as well; the theorems that state a result
      state it as [Some _].
    - urwid is not part of the repository.  Its constructor [urwid.AttrSpec]
      is a parameter of the model: a function that returns the object built
      or fails.  The theorems hold for every such function; the examples run
      on [Urwid.AttrSpec], which follows urwid on the descriptions they
      use. *)

From stdpp Require Import gmap strings list.
From Stdlib Require Import Ascii HexString.

(** ** Python string primitives *)

Module Py.

(** [text.find(c, start)] for a one-character needle. *)
Fixpoint find (text : string) (c : ascii) (start : nat) : option nat :=
  match text with
  | EmptyString => None
  | String a rest =>
      match start with
      | 0 => if Ascii.eqb a c then Some 0 else S <$> find rest c 0
      | S n => S <$> find rest c n
      end
  end.

(** [text[i:]] *)
Fixpoint slice_from (text : string) (i : nat) {struct i} : string :=
  match i, text with
  | 0, _ => text
  | S n, EmptyString => EmptyString
  | S n, String _ rest => slice_from rest n
  end.

(** [text[:n]] *)
Fixpoint slice_to (text : string) (n : nat) {struct n} : string :=
  match n, text with
  | 0, _ => EmptyString
  | S n, EmptyString => EmptyString
  | S n, String a rest => String a (slice_to rest n)
  end.

(** [text[i:j]]; Python yields the empty string when [j <= i]. *)
Definition slice (text : string) (i j : nat) : string :=
  slice_to (slice_from text i) (j - i).

(** [text[n]]; [None] stands for [IndexError]. *)
Definition item (text : string) (n : nat) : option ascii := String.get n text.

(** [sep.join(parts)] with the empty separator. *)
Definition join (parts : list string) : string :=
  String.concat EmptyString parts.

(** [s.split(sep)] for a one-character separator: never the empty list. *)
Fixpoint split (sep : ascii) (s : string) : list string :=
  match s with
  | EmptyString => [EmptyString]
  | String a rest =>
      if Ascii.eqb a sep then EmptyString :: split sep rest
      else match split sep rest with
           | [] => [String a EmptyString]
           | w :: ws => String a w :: ws
           end
  end.

End Py.

(** ** [alot/utils/ansi.py] *)

Definition ESC : ascii := ascii_of_nat 27.
Definition DQUOTE : ascii := ascii_of_nat 34.

(** A range [lo-hi] inside a character class. *)
Definition in_range (lo hi c : ascii) : bool :=
  Nat.leb (nat_of_ascii lo) (nat_of_ascii c)
  && Nat.leb (nat_of_ascii c) (nat_of_ascii hi).

(** The characters listed one by one inside a character class. *)
Fixpoint one_of (chars : string) (c : ascii) : bool :=
  match chars with
  | EmptyString => false
  | String a rest => Ascii.eqb a c || one_of rest c
  end.

(** [_b2 = r'[0-9:;<=>?]*'], the class of parameter bytes. *)
Definition _b2 (c : ascii) : bool :=
  in_range "0" "9" c || one_of ":;<=>?" c.

(** [_b3 = r'[ !\"#$%&\'()*+,-./]*'], the class of intermediate bytes.  Inside
    the brackets [\"] and [\'] are the two quote characters and [,-.] is a
    range. *)
Definition _b3 (c : ascii) : bool :=
  one_of " !" c || Ascii.eqb DQUOTE c || one_of "#$%&'()*+" c
  || in_range "," "." c || one_of "/" c.

(** [_b4 = r'[A-Z[\]^_`a-z{|}~]'], the class of final bytes.  [\]] is the
    closing bracket: the backslash itself is not in the class. *)
Definition _b4 (c : ascii) : bool :=
  in_range "A" "Z" c || one_of "[]^_`" c || in_range "a" "z" c
  || one_of "{|}~" c.

(** Number of leading characters of [s] in class [p]: what [p*] consumes. *)
Fixpoint span (p : ascii → bool) (s : string) : nat :=
  match s with
  | String c rest => if p c then S (span p rest) else 0
  | EmptyString => 0
  end.

(** The groups [(pb, ib, fb)] of a match of [csi_pattern]. *)
Definition csi_args : Type := string * string * string.

(** [csi_pattern.match(text, pos)] followed by [m.groups()] and [m.end()].
    The pattern is ESC, an opening bracket, [_b2], [_b3] and one [_b4].  The
    three classes are pairwise disjoint ([csi_classes_disjoint]), so the
    greedy choice for each star is the only one that can lead to a match and
    the matcher needs no backtracking. *)
Definition parse_csi (text : string) (pos : nat) : option (csi_args * nat) :=
  match Py.slice_from text pos with
  | String e (String b rest) =>
      if Ascii.eqb e ESC && Ascii.eqb b "["
      then
        let n2 := span _b2 rest in
        let n3 := span _b3 (Py.slice_from rest n2) in
        match Py.item rest (n2 + n3) with
        | Some fb =>
            if _b4 fb
            then Some ((Py.slice rest 0 n2, Py.slice rest n2 (n2 + n3),
                        String fb EmptyString),
                       pos + 2 + n2 + n3 + 1)
            else None
        | None => None
        end
      else None
  | _ => None
  end.

(** What the generator yields: [(code, args, text)]. *)
Definition segment : Type := option ascii * option csi_args * string.

(** The [while True] loop of [parse_ansi_escapes] together with the final
    [yield]; the generator is materialised as the list of what it yields. *)
Fixpoint parse_loop (fuel : nat) (text : string) (i j : nat)
    (code : option ascii) (args : option csi_args) : option (list segment) :=
  match fuel with
  | 0 => None
  | S fuel =>
      match Py.find text ESC j with
      | None => Some [(code, args, Py.slice_from text i)]
      | Some j =>
          if Nat.leb (String.length text) (j + 1)
          then Some [(code, args, Py.slice_from text i)]
          else
            new_code ← Py.item text (j + 1);
            let new_args :=
              if Ascii.eqb new_code "[" then parse_csi text j else None in
            match new_args with
            | None => parse_loop fuel text i (j + 2) code args
            | Some (new_args, k) =>
                segs ← parse_loop fuel text k k (Some new_code) (Some new_args);
                Some ((code, args, Py.slice text i j) :: segs)
            end
      end
  end.

Definition parse_ansi_escapes (text : string) : option (list segment) :=
  parse_loop (S (String.length text)) text 0 0 None None.

Definition strip_ansi_escapes (text : string) : option string :=
  segs ← parse_ansi_escapes text;
  Some (Py.join (map (λ seg : segment, seg.2) segs)).

(** ** [alot/widgets/ansi.py] *)

(** A value stored in the [attr] dictionary: a colour string or a flag. *)
Inductive value : Type :=
  | VStr (s : string)
  | VBool (b : bool).

#[global] Instance value_eq_dec : EqDecision value.
Proof. solve_decision. Defined.

(** Python truthiness of a stored value. *)
Definition truthy (v : value) : bool :=
  match v with
  | VStr s => negb (String.eqb s EmptyString)
  | VBool b => b
  end.

(** A stored value used where a [str] is required; [None] is [TypeError]. *)
Definition as_str (v : value) : option string :=
  match v with
  | VStr s => Some s
  | VBool _ => None
  end.

(** What the source reads of the caller's [default_attr]: the attributes
    [foreground], [background], [bold] and [underline], and nothing else.
    The caller passes a [urwid.AttrSpec]; there [foreground] is the colour
    followed by the names of the flags that are set, so that a default
    attribute that is bold reads [foreground = "default,bold"] and
    [bold = true].  The theorems hold for every value of the four
    attributes. *)
Record DefaultAttr : Type := mkDefaultAttr {
  foreground : string;
  background : string;
  bold : bool;
  underline : bool
}.

Definition ECODES : gmap string (gmap string value) :=
  list_to_map [
    ("1", {[ "bold" := VBool true ]});
    ("3", {[ "italics" := VBool true ]});
    ("4", {[ "underline" := VBool true ]});
    ("5", {[ "blink" := VBool true ]});
    ("7", {[ "standout" := VBool true ]});
    ("9", {[ "strikethrough" := VBool true ]});
    ("30", {[ "fg" := VStr "black" ]});
    ("31", {[ "fg" := VStr "dark red" ]});
    ("32", {[ "fg" := VStr "dark green" ]});
    ("33", {[ "fg" := VStr "brown" ]});
    ("34", {[ "fg" := VStr "dark blue" ]});
    ("35", {[ "fg" := VStr "dark magenta" ]});
    ("36", {[ "fg" := VStr "dark cyan" ]});
    ("37", {[ "fg" := VStr "light gray" ]});
    ("40", {[ "bg" := VStr "black" ]});
    ("41", {[ "bg" := VStr "dark red" ]});
    ("42", {[ "bg" := VStr "dark green" ]});
    ("43", {[ "bg" := VStr "brown" ]});
    ("44", {[ "bg" := VStr "dark blue" ]});
    ("45", {[ "bg" := VStr "dark magenta" ]});
    ("46", {[ "bg" := VStr "dark cyan" ]});
    ("47", {[ "bg" := VStr "light gray" ]})
  ].

Definition URWID_MODS : list string :=
  ["bold"; "underline"; "standout"; "blink"; "italics"; "strikethrough"].

(** [int(s)] on a parameter.  A parameter is a piece of the [pb] group, whose
    characters are those of [_b2] less the semicolon; on such a string
    [int] succeeds exactly when the string is a non-empty run of the digits
    0-9 that is no longer than CPython allows: a decimal string of more than
    [sys.get_int_max_str_digits()] digits, 4300 unless the interpreter is
    configured otherwise, is refused.  [None] is [ValueError]. *)
Definition int_max_str_digits : nat := 4300.

Definition digit_value (c : ascii) : option N :=
  if in_range "0" "9" c then Some (N_of_ascii c - 48)%N else None.

Fixpoint int_digits (s : string) (acc : N) : option N :=
  match s with
  | EmptyString => Some acc
  | String c rest => d ← digit_value c; int_digits rest (acc * 10 + d)%N
  end.

Definition int (s : string) : option N :=
  match s with
  | EmptyString => None
  | _ =>
      if Nat.ltb int_max_str_digits (String.length s) then None
      else int_digits s 0%N
  end.

(** The format specification [02x]: lowercase hexadecimal, padded with zeros
    on the left up to two characters. *)
Definition format_02x (n : N) : string :=
  let digits :=
    match n with
    | N0 => "0"
    | Npos p => HexString.Raw.of_pos p EmptyString
    end in
  if Nat.ltb (String.length digits) 2 then "0" +:+ digits else digits.

Section parse_escapes_to_urwid.

(** [Spec] is the type of the objects [urwid.AttrSpec] builds, taken up to
    their equality (they are keys of the dictionary [urwid_focus]), and
    [AttrSpec fg bg] is the call [urwid.AttrSpec(fg, bg)]: [None] when it
    raises [AttrSpecError].  Nothing is assumed of either. *)
Context {Focus Spec : Type} `{Countable Spec}.
Variable AttrSpec : string → string → option Spec.
Variable default_attr : DefaultAttr.
Variable default_attr_focus : Focus.
Variable parse_background : bool.

(** The locals of [parse_escapes_to_urwid] that its closures read and
    update. *)
Record locals : Type := mkLocals {
  urwid_text : list (Spec * string);
  urwid_focus : gmap (option Spec) Focus;
  attr : gmap string value
}.

(** [dict(fg=..., bg=..., bold=..., underline=..., standout=...)], the
    dictionary built at line 91 and again by [reset_attr]. *)
Definition default_dict : gmap string value :=
  {[ "fg" := VStr (foreground default_attr);
     "bg" := VStr (background default_attr);
     "bold" := VBool (bold default_attr);
     "underline" := VBool (underline default_attr);
     "standout" := VBool (underline default_attr) ]}.

(** [mod in attr and attr[mod]] *)
Definition mod_active (attr : gmap string value) (mod_ : string) : bool :=
  match attr !! mod_ with
  | Some v => truthy v
  | None => false
  end.

Definition append_themed_infix (st : locals) (infix : string)
    : option locals :=
  if String.eqb infix EmptyString then Some st
  else
    urwid_fg ← attr st !! "fg" ≫= as_str;
    let urwid_bg := background default_attr in
    let urwid_fg :=
      fold_left (λ urwid_fg mod_,
                   if mod_active (attr st) mod_
                   then urwid_fg +:+ "," +:+ mod_ else urwid_fg)
                URWID_MODS urwid_fg in
    urwid_bg ← (if parse_background then attr st !! "bg" ≫= as_str
                else Some urwid_bg);
    urwid_attr ← AttrSpec urwid_fg urwid_bg;
    Some {| urwid_text := urwid_text st ++ [(urwid_attr, infix)];
            urwid_focus :=
              <[Some urwid_attr := default_attr_focus]> (urwid_focus st);
            attr := attr st |}.

(** [attr.clear()] followed by [attr.update(fg=..., ...)]: nothing of the
    old dictionary survives. *)
Definition reset_attr (attr : gmap string value) : gmap string value :=
  default_dict.

(** Lines 176-185: the key named by [param], and the update when both the
    key and the value are non-empty. *)
Definition set_color (param attr_value : string)
    (attr : gmap string value) : gmap string value :=
  let attr_name :=
    if String.eqb param "38" then "fg"
    else if String.eqb param "48" then "bg"
    else EmptyString in
  if negb (String.eqb attr_name EmptyString)
     && negb (String.eqb attr_value EmptyString)
  then {[ attr_name := VStr attr_value ]} ∪ attr
  else attr.

(** Lines 167-172: the colour string of three RGB parameters; it stays
    empty when one of them is not an integer. *)
Definition rgb_value (r g b : string) : string :=
  match int r, int g, int b with
  | Some r, Some g, Some b =>
      "#" +:+ format_02x r +:+ format_02x g +:+ format_02x b
  | _, _, _ => EmptyString
  end.

(** The [while True] loop of [update_attr] over [param_iter].  Every
    [next(param_iter)] is a match on the remaining list, [StopIteration]
    its empty case; a [break] returns the dictionary as it is. *)
Fixpoint consume_params (param_iter : list string)
    (attr : gmap string value) : gmap string value :=
  match param_iter with
  | [] => attr
  | param :: param_iter =>
      if String.eqb param EmptyString || String.eqb param "0"
      then consume_params param_iter (reset_attr attr)
      else
        match ECODES !! param with
        | Some changes => consume_params param_iter (changes ∪ attr)
        | None =>
            if bool_decide (param ∈ ["38"; "48"; "58"])
            then
              match param_iter with
              | [] => attr
              | color_type :: param_iter =>
                  if String.eqb color_type "5"
                  then
                    match param_iter with
                    | [] => attr
                    | color_index :: param_iter =>
                        consume_params param_iter
                          (set_color param ("h" +:+ color_index) attr)
                    end
                  else if String.eqb color_type "2"
                  then
                    match param_iter with
                    | r :: g :: b :: param_iter =>
                        consume_params param_iter
                          (set_color param (rgb_value r g b) attr)
                    | _ => attr
                    end
                  else
                    consume_params param_iter
                      (set_color param EmptyString attr)
              end
            else consume_params param_iter attr
        end
  end.

(** [("0" if v == "" else v for v in pb.split(";"))] *)
Definition params_of (pb : string) : list string :=
  map (λ v, if String.eqb v EmptyString then "0" else v) (Py.split ";" pb).

Definition update_attr (pb ib fb : string) (attr : gmap string value)
    : gmap string value :=
  if String.eqb fb "m" then consume_params (params_of pb) attr else attr.

(** The body of the [for] loop at line 189. *)
Definition handle_segment (st : locals) (seg : segment) : option locals :=
  let '(code, args, infix) := seg in
  st ← (if bool_decide (code = Some "["%char)
        then '(pb, ib, fb) ← args;
             Some {| urwid_text := urwid_text st;
                     urwid_focus := urwid_focus st;
                     attr := update_attr pb ib fb (attr st) |}
        else Some st);
  append_themed_infix st infix.

Fixpoint for_segments (segs : list segment) (st : locals) : option locals :=
  match segs with
  | [] => Some st
  | seg :: segs => st ← handle_segment st seg; for_segments segs st
  end.

Definition initial_locals : locals :=
  {| urwid_text := [];
     urwid_focus := {[ None := default_attr_focus ]};
     attr := default_dict |}.

(** The locals when the [for] loop is over. *)
Definition final_locals (text : string) : option locals :=
  segs ← parse_ansi_escapes text;
  for_segments segs initial_locals.

Definition parse_escapes_to_urwid (text : string)
    : option (list (Spec * string) * gmap (option Spec) Focus) :=
  st ← final_locals text;
  Some (urwid_text st, urwid_focus st).

End parse_escapes_to_urwid.

(** ** [urwid.AttrSpec], for the examples

    What [urwid.AttrSpec(fg, bg)] does with its arguments, for the default of
    256 colours.  [fg] is split at the commas and each part is stripped of
    blanks.  A part that names a setting (bold, italics, underline, blink,
    standout, strikethrough) turns it on, and is an error when it is on
    already.  Any other part must describe a colour: the empty string or
    [default], one of the sixteen basic colours, or [h0] to [h255]; a
    description that is not recognised is an error, and so is a second
    colour.  [bg] is one colour description.  Two objects are equal when
    colours and settings are, however they were written: [h16] and [h016]
    are the same colour.  The descriptions urwid takes besides these (grays,
    [#rgb] and [#rrggbb]) are refused here: the function returns an object
    only where urwid does, and the examples stay within the descriptions
    above. *)

Module Urwid.

Inductive colour : Type :=
  | Default
  | Basic (index : nat)
  | High (index : N).

#[global] Instance colour_eq_dec : EqDecision colour.
Proof. solve_decision. Defined.

#[global] Instance colour_countable : Countable colour.
Proof.
  apply (inj_countable'
           (λ c, match c with
                 | Default => inl ()
                 | Basic i => inr (inl i)
                 | High n => inr (inr n)
                 end)
           (λ x, match x with
                 | inl _ => Default
                 | inr (inl i) => Basic i
                 | inr (inr n) => High n
                 end)).
  by intros [].
Defined.

(** The value of an attribute: foreground colour, the six settings in the
    order of [_ATTRIBUTES], background colour. *)
Record spec : Type := mkSpec {
  fg : colour;
  settings : list bool;
  bg : colour
}.

#[global] Instance spec_eq_dec : EqDecision spec.
Proof. solve_decision. Defined.

#[global] Instance spec_countable : Countable spec.
Proof.
  apply (inj_countable' (λ a, (fg a, settings a, bg a))
                        (λ x, mkSpec x.1.1 x.1.2 x.2)).
  by intros [].
Defined.

Definition _BASIC_COLORS : list string :=
  ["black"; "dark red"; "dark green"; "brown"; "dark blue"; "dark magenta";
   "dark cyan"; "light gray"; "dark gray"; "light red"; "light green";
   "yellow"; "light blue"; "light magenta"; "light cyan"; "white"].

Definition _ATTRIBUTES : list string :=
  ["bold"; "italics"; "underline"; "blink"; "standout"; "strikethrough"].

(** [l.index(x)] *)
Fixpoint index (l : list string) (x : string) : option nat :=
  match l with
  | [] => None
  | y :: l => if String.eqb y x then Some 0 else S <$> index l x
  end.

(** [part.strip()] *)
Definition is_space (c : ascii) : bool :=
  in_range (ascii_of_nat 9) (ascii_of_nat 13) c
  || in_range (ascii_of_nat 28) (ascii_of_nat 32) c
  || Ascii.eqb c (ascii_of_nat 133) || Ascii.eqb c (ascii_of_nat 160).

Fixpoint lstrip (s : string) : string :=
  match s with
  | String c rest => if is_space c then lstrip rest else s
  | EmptyString => EmptyString
  end.

Fixpoint rstrip (s : string) : string :=
  match s with
  | String c rest =>
      match rstrip rest with
      | EmptyString => if is_space c then EmptyString else String c EmptyString
      | rest => String c rest
      end
  | EmptyString => EmptyString
  end.

Definition strip (s : string) : string := rstrip (lstrip s).

(** [_parse_color_256(desc)] on a description [h] followed by a number: at
    most four characters, and a number up to 255, written with digits
    only. *)
Definition _parse_color_256 (desc : string) : option N :=
  if Nat.ltb 4 (String.length desc) then None
  else
    match desc with
    | String "h" num =>
        n ← int num; if (n <=? 255)%N then Some n else None
    | _ => None
    end.

Definition parse_color (desc : string) : option colour :=
  if bool_decide (desc ∈ [EmptyString; "default"]) then Some Default
  else
    match index _BASIC_COLORS desc with
    | Some i => Some (Basic i)
    | None => High <$> _parse_color_256 desc
    end.

(** The loop of [_set_foreground] over the parts of [fg]. *)
Fixpoint foreground_parts (parts : list string) (color : option colour)
    (flags : list string) : option (colour * list string) :=
  match parts with
  | [] => Some (default Default color, flags)
  | part :: parts =>
      let part := strip part in
      if bool_decide (part ∈ _ATTRIBUTES)
      then
        if bool_decide (part ∈ flags) then None
        else foreground_parts parts color (part :: flags)
      else
        scolor ← parse_color part;
        match color with
        | Some _ => None
        | None => foreground_parts parts (Some scolor) flags
        end
  end.

Definition AttrSpec (fg bg : string) : option spec :=
  '(color, flags) ← foreground_parts (Py.split "," fg) None [];
  background ← parse_color bg;
  Some (mkSpec color (map (λ name, bool_decide (name ∈ flags)) _ATTRIBUTES)
               background).

End Urwid.

(** ** [alot/commands/thread.py] *)

(** [ReplyCommand.apply], lines 273-276: the entries of the References
    header of a reply.  [old_references] is the list that
    [old_references.split()] gave, [message_id] the id of the message replied
    to.  [old_references[-8:]] is the last eight entries, all of them when
    there are fewer; [old_references[:1]] is the first entry. *)
Definition reply_references (old_references : list string)
    (message_id : string) : list string :=
  let references := drop (length old_references - 8) old_references in
  let references :=
    if Nat.ltb 8 (length old_references)
    then take 1 old_references ++ references
    else references in
  references ++ ["<" +:+ message_id +:+ ">"].

(** [PipeCommand.apply], lines 765-769: what becomes of the strings to pipe
    once they are collected.  [None] only when the stripper ran out of
    fuel, which it never does. *)
Definition pipe_payloads (strip_ansi separately : bool) (separator : string)
    (pipestrings : list string) : option (list string) :=
  pipestrings ← (if strip_ansi then mapM strip_ansi_escapes pipestrings
                 else Some pipestrings);
  Some (if negb separately then [String.concat separator pipestrings]
        else pipestrings).

(** ** Vocabulary of the statements *)

(** [esc s] is ESC followed by [s]. *)
Definition esc (s : string) : string := String ESC s.

(** [prepend_text s segs] puts [s] in front of the text of the first segment. *)
Definition prepend_text (s : string) (segs : list segment) : list segment :=
  match segs with
  | [] => []
  | (code, args, t) :: segs => (code, args, s +:+ t) :: segs
  end.

(** A colour followed by the names of the style flags that are set, in the
    shape [append_themed_infix] gives to [urwid_fg]. *)
Definition with_mods (colour : string) (mods : list (string * bool)) : string :=
  fold_left (λ (fg : string) (flag : string * bool),
               if flag.2 then fg +:+ "," +:+ flag.1 else fg)
            mods colour.

(** The foreground description [append_themed_infix] hands to
    [urwid.AttrSpec]: a colour and the style flags found in the dictionary. *)
Definition themed_by (attr : gmap string value) (fg : string) : string :=
  with_mods fg (map (λ mod_, (mod_, mod_active attr mod_)) URWID_MODS).

(** The same for the flags of the default dictionary: bold and underline as
    given, standout as underline. *)
Definition themed (D : DefaultAttr) (fg : string) : string :=
  with_mods fg [("bold", bold D); ("underline", underline D);
                ("standout", underline D)].

(** What [parse_escapes_to_urwid] returns when all it appends is the text
    [t] under the attribute described by [fg] and [bg]: the run and the two
    keys of the focus map, or the error of [urwid.AttrSpec]. *)
Definition one_run {Focus Spec : Type} `{Countable Spec}
    (AttrSpec : string → string → option Spec) (F : Focus)
    (fg bg t : string)
    : option (list (Spec * string) * gmap (option Spec) Focus) :=
  urwid_attr ← AttrSpec fg bg;
  Some ([(urwid_attr, t)], <[Some urwid_attr := F]> {[None := F]}).

(** A text in which the tokenizer finds no sequence: characters other than
    ESC, ESC followed by a character that is not an opening bracket, and
    possibly one ESC at the very end. *)
Inductive inert : string → Prop :=
  | inert_nil : inert EmptyString
  | inert_esc : inert (String ESC EmptyString)
  | inert_plain c t : c ≠ ESC → inert t → inert (String c t)
  | inert_pair c t :
      c ≠ "["%char → inert t → inert (String ESC (String c t)).

(** One lowercase hexadecimal digit, and a byte as two of them. *)
Definition hex_digit (d : N) : ascii :=
  match d with
  | 0 => "0" | 1 => "1" | 2 => "2" | 3 => "3" | 4 => "4" | 5 => "5"
  | 6 => "6" | 7 => "7" | 8 => "8" | 9 => "9" | 10 => "a" | 11 => "b"
  | 12 => "c" | 13 => "d" | 14 => "e" | _ => "f"
  end%N%char.

Definition two_hex_digits (n : N) : string :=
  String (hex_digit (n / 16)) (String (hex_digit (n mod 16)) EmptyString).


(** The focus map holds [None] and the attribute of every run, and all its
    values are [default_attr_focus]. *)
Definition focus_ok {Focus Spec : Type} `{Countable Spec}
    (default_attr_focus : Focus) (st : @locals Focus Spec _ _) : Prop :=
  urwid_focus st !! None = Some default_attr_focus
  ∧ (∀ key v, urwid_focus st !! key = Some v → v = default_attr_focus)
  ∧ (∀ a t, (a, t) ∈ urwid_text st →
            urwid_focus st !! Some a = Some default_attr_focus).

(** [all_in p s]: every character of [s] is in class [p]. *)
Fixpoint all_in (p : ascii → bool) (s : string) : bool :=
  match s with
  | EmptyString => true
  | String c rest => p c && all_in p rest
  end.

(** The text of the CSI sequence with groups [(pb, ib, fb)]. *)
Definition csi_text (args : csi_args) : string :=
  String ESC (String "[" (args.1.1 +:+ args.1.2 +:+ args.2)).

(** The piece of the input a segment stands for: the sequence it follows, if
    any, and then its text. *)
Definition segment_source (seg : segment) : string :=
  match seg.1.2 with
  | Some args => csi_text args +:+ seg.2
  | None => seg.2
  end.

(** A segment that follows a CSI sequence: its code is the opening bracket
    and its groups are parameter bytes, intermediate bytes and one final
    byte. *)
Definition csi_segment (seg : segment) : Prop :=
  seg.1.1 = Some "["%char
  ∧ ∃ pb ib c,
      seg.1.2 = Some (pb, ib, String c EmptyString)
      ∧ all_in _b2 pb = true ∧ all_in _b3 ib = true ∧ _b4 c = true.

(** The dictionary holds both colours as strings, and besides them only
    style flags of [URWID_MODS], as booleans. *)
Definition dict_ok (attr : gmap string value) : Prop :=
  (∃ fg, attr !! "fg" = Some (VStr fg))
  ∧ (∃ bg, attr !! "bg" = Some (VStr bg))
  ∧ ∀ key v, attr !! key = Some v → key ≠ "fg" → key ≠ "bg" →
             key ∈ URWID_MODS ∧ ∃ b, v = VBool b.

(** * Properties *)

(** ** Strings *)

(** stdpp blocks the unfolding of string concatenation by [simpl]; the proofs
    below compute with concrete prefixes, so it is allowed again here. *)
#[local] Arguments String.append !_ _ / : simpl nomatch.

Section string_facts.

Implicit Types (s t p : string) (c : ascii) (i j n : nat).

Lemma length_app s t :
  String.length (s +:+ t) = String.length s + String.length t.
Proof. induction s as [|a s IH]; simpl; [done | by rewrite IH]. Qed.

Lemma app_empty_r s : s +:+ EmptyString = s.
Proof. induction s as [|a s IH]; simpl; [done | by rewrite IH]. Qed.

Lemma app_assoc s t p : (s +:+ t) +:+ p = s +:+ t +:+ p.
Proof. induction s as [|a s IH]; simpl; [done | by rewrite IH]. Qed.

Lemma slice_from_app p t i :
  Py.slice_from (p +:+ t) (String.length p + i) = Py.slice_from t i.
Proof. induction p as [|a p IH]; simpl; [done | apply IH]. Qed.

Lemma slice_from_length s i :
  String.length (Py.slice_from s i) = String.length s - i.
Proof.
  revert s; induction i as [|i IH]; intros [|a s]; simpl; by try lia.
Qed.

Lemma slice_from_add s i n :
  Py.slice_from (Py.slice_from s i) n = Py.slice_from s (i + n).
Proof.
  revert s; induction i as [|i IH]; intros s; simpl; [done|].
  destruct s as [|a s]; [by destruct n | apply IH].
Qed.

(** [s[:n] + s[n:] == s] *)
Lemma slice_to_from s n : Py.slice_to s n +:+ Py.slice_from s n = s.
Proof.
  revert s; induction n as [|n IH]; intros [|a s]; simpl; try done.
  by rewrite IH.
Qed.

Lemma slice_to_add s n m :
  Py.slice_to s n +:+ Py.slice_to (Py.slice_from s n) m
  = Py.slice_to s (n + m).
Proof.
  revert s; induction n as [|n IH]; intros s; simpl; [done|].
  destruct s as [|a s]; simpl; [by destruct m | by rewrite IH].
Qed.

(** [s[i:j] + s[j:] == s[i:]] when [i <= j] *)
Lemma slice_slice_from s i j :
  i ≤ j → Py.slice s i j +:+ Py.slice_from s j = Py.slice_from s i.
Proof.
  intros Hij. unfold Py.slice.
  replace j with (i + (j - i)) at 2 by lia.
  rewrite <- slice_from_add. apply slice_to_from.
Qed.

(** [s[i:j] + s[j:k] == s[i:k]] when [i <= j <= k] *)
Lemma slice_slice s i j k :
  i ≤ j → j ≤ k → Py.slice s i j +:+ Py.slice s j k = Py.slice s i k.
Proof.
  intros Hij Hjk. unfold Py.slice.
  replace (Py.slice_from s j)
    with (Py.slice_from (Py.slice_from s i) (j - i)).
  - rewrite slice_to_add. f_equal. lia.
  - rewrite slice_from_add. f_equal. lia.
Qed.

Lemma slice_app p t i j :
  i ≤ j →
  Py.slice (p +:+ t) (String.length p + i) (String.length p + j)
  = Py.slice t i j.
Proof.
  intros Hij. unfold Py.slice. rewrite slice_from_app. f_equal. lia.
Qed.

Lemma item_app p t n :
  Py.item (p +:+ t) (String.length p + n) = Py.item t n.
Proof. induction p as [|a p IH]; simpl; [done | apply IH]. Qed.

Lemma item_lt s n : n < String.length s → is_Some (Py.item s n).
Proof.
  revert n; induction s as [|a s IH]; intros n H; simpl in *; [lia|].
  destruct n as [|n]; [by eexists | apply IH; lia].
Qed.

Lemma item_Some_lt s n c : Py.item s n = Some c → n < String.length s.
Proof.
  revert n; induction s as [|a s IH]; intros n; simpl; [done|].
  destruct n as [|n]; [lia|]. intros H%IH. lia.
Qed.

Lemma item_slice_from s n :
  Py.item s n = Py.item (Py.slice_from s n) 0.
Proof.
  revert s; induction n as [|n IH]; intros [|a s]; simpl; by try apply IH.
Qed.

(** [s[i:i+2]] is the two characters at [i] and [i+1]. *)
Lemma slice_two s i a b :
  Py.item s i = Some a → Py.item s (i + 1) = Some b →
  Py.slice s i (i + 2) = String a (String b EmptyString).
Proof.
  unfold Py.slice. replace (i + 2 - i) with 2 by lia.
  revert s; induction i as [|i IH]; intros s Ha Hb.
  - destruct s as [|a' [|b' s]]; simpl in *; by simplify_eq.
  - destruct s as [|a' s]; simpl in *; [done | by apply IH].
Qed.

Lemma find_ge s c j n : Py.find s c j = Some n → j ≤ n < String.length s.
Proof.
  revert j n; induction s as [|a s IH]; intros j n; simpl; [done|].
  destruct j as [|j].
  - destruct (Ascii.eqb a c); [intros [= <-]; lia|].
    intros (m & Hm & ->)%fmap_Some. apply IH in Hm. lia.
  - intros (m & Hm & ->)%fmap_Some. apply IH in Hm. lia.
Qed.

Lemma find_item s c j n : Py.find s c j = Some n → Py.item s n = Some c.
Proof.
  revert j n; induction s as [|a s IH]; intros j n; simpl; [done|].
  destruct j as [|j].
  - destruct (Ascii.eqb_spec a c) as [->|]; [by intros [= <-]|].
    intros (m & Hm & ->)%fmap_Some. by apply IH in Hm.
  - intros (m & Hm & ->)%fmap_Some. by apply IH in Hm.
Qed.

Lemma find_app p t c j :
  Py.find (p +:+ t) c (String.length p + j)
  = (λ n, String.length p + n) <$> Py.find t c j.
Proof.
  induction p as [|a p IH]; simpl.
  - by destruct (Py.find t c j).
  - rewrite IH. by destruct (Py.find t c j).
Qed.

Lemma find_none_app s t c :
  Py.find s c 0 = None → Py.find t c 0 = None →
  Py.find (s +:+ t) c 0 = None.
Proof.
  intros Hs Ht. induction s as [|a s IH]; simpl in *; [done|].
  destruct (Ascii.eqb a c); [done|].
  destruct (Py.find s c 0); [done|]. by rewrite IH.
Qed.

Lemma split_no_sep sep s : Py.find s sep 0 = None → Py.split sep s = [s].
Proof.
  induction s as [|a s IH]; simpl; [done|].
  destruct (Ascii.eqb a sep); [done|].
  destruct (Py.find s sep 0); [done|]. intros _. by rewrite IH.
Qed.

Lemma find_slice_from s c j :
  Py.find s c j = (λ n, j + n) <$> Py.find (Py.slice_from s j) c 0.
Proof.
  revert j; induction s as [|a s IH]; intros [|j]; simpl; try done.
  - by destruct (Ascii.eqb a c); [|destruct (Py.find s c 0)].
  - rewrite IH. by destruct (Py.find (Py.slice_from s j) c 0).
Qed.

(** Nothing before the first [c] is a [c]. *)
Lemma find_slice_to_none s c n :
  Py.find s c 0 = Some n → Py.find (Py.slice_to s n) c 0 = None.
Proof.
  revert n; induction s as [|a s IH]; intros n; simpl; [done|].
  destruct (Ascii.eqb a c) eqn:Ea; [by intros [= <-]|].
  intros (m & Hm & ->)%fmap_Some. simpl. rewrite Ea.
  by rewrite (IH _ Hm).
Qed.

Lemma find_slice_none s c j n :
  Py.find s c j = Some n → Py.find (Py.slice s j n) c 0 = None.
Proof.
  rewrite find_slice_from. intros (m & Hm & ->)%fmap_Some.
  unfold Py.slice. replace (j + m - j) with m by lia.
  by apply find_slice_to_none.
Qed.

Lemma find_slice_from_none s c j :
  Py.find s c j = None → Py.find (Py.slice_from s j) c 0 = None.
Proof.
  rewrite find_slice_from.
  by destruct (Py.find (Py.slice_from s j) c 0).
Qed.

Lemma join_cons s l : Py.join (s :: l) = s +:+ Py.join l.
Proof.
  unfold Py.join. destruct l as [|t l]; simpl; [by rewrite app_empty_r|done].
Qed.

Lemma find_join_none l c :
  Forall (λ s, Py.find s c 0 = None) l → Py.find (Py.join l) c 0 = None.
Proof.
  induction 1 as [|s l Hs _ IH]; [done|].
  rewrite join_cons. by apply find_none_app.
Qed.

End string_facts.

(** ** The tokenizer *)

Section tokenizer_facts.

Implicit Types (text p t : string) (i j k fuel : nat).
Implicit Types (code : option ascii) (args : option csi_args).

(** The character classes of [csi_pattern] do not overlap. *)
Lemma csi_classes_disjoint (c : ascii) :
  (_b2 c && _b3 c = false) ∧ (_b2 c && _b4 c = false)
  ∧ (_b3 c && _b4 c = false).
Proof. by destruct c as [[] [] [] [] [] [] [] []]. Qed.

(** A match ends at least three characters after its start. *)
Lemma parse_csi_end text j a k : parse_csi text j = Some (a, k) → j + 3 ≤ k.
Proof.
  unfold parse_csi. intros H.
  repeat case_match; simplify_eq. lia.
Qed.

(** A match at [pos] only reads the text from [pos] on. *)
Lemma parse_csi_app p t j :
  parse_csi (p +:+ t) (String.length p + j)
  = (λ '(a, k), (a, String.length p + k)) <$> parse_csi t j.
Proof.
  unfold parse_csi. rewrite slice_from_app.
  repeat case_match; simplify_eq; simpl; try done.
  do 2 f_equal. lia.
Qed.

(** One iteration of the loop. *)
Lemma parse_loop_S fuel text i j code args :
  parse_loop (S fuel) text i j code args
  = match Py.find text ESC j with
    | None => Some [(code, args, Py.slice_from text i)]
    | Some j =>
        if Nat.leb (String.length text) (j + 1)
        then Some [(code, args, Py.slice_from text i)]
        else
          new_code ← Py.item text (j + 1);
          match
            if Ascii.eqb new_code "[" then parse_csi text j else None
          with
          | None => parse_loop fuel text i (j + 2) code args
          | Some (new_args, k) =>
              segs ← parse_loop fuel text k k (Some new_code) (Some new_args);
              Some ((code, args, Py.slice text i j) :: segs)
          end
    end.
Proof. done. Qed.

(** One unit of fuel per character from the cursor on, and one more, is
    enough for the loop to finish. *)
Lemma parse_loop_total fuel text i j code args :
  String.length text ≤ j + fuel →
  is_Some (parse_loop (S fuel) text i j code args).
Proof.
  revert i j code args.
  induction fuel as [|fuel IH]; intros i j code args Hlen;
    rewrite parse_loop_S;
    (destruct (Py.find text ESC j) as [j'|] eqn:Hfind; [|by eexists]);
    apply find_ge in Hfind;
    (destruct (Nat.leb_spec (String.length text) (j' + 1)); [by eexists|]);
    [lia|].
  destruct (item_lt text (j' + 1)) as [new_code ->]; [lia|].
  cbn [mbind option_bind].
  destruct (if Ascii.eqb new_code "[" then parse_csi text j' else None)
    as [[new_args k]|] eqn:Hcsi.
  - destruct (Ascii.eqb new_code "["); [|done].
    apply parse_csi_end in Hcsi.
    destruct (IH k k (Some new_code) (Some new_args)) as [segs ->]; [lia|].
    by eexists.
  - apply IH. lia.
Qed.

Lemma parse_loop_fuel fuel fuel' text i j code args segs :
  parse_loop fuel text i j code args = Some segs → fuel ≤ fuel' →
  parse_loop fuel' text i j code args = Some segs.
Proof.
  revert fuel' i j code args segs.
  induction fuel as [|fuel IH]; intros [|fuel'] i j code args segs;
    simpl; try done; try lia.
  intros H Hle.
  destruct (Py.find text ESC j) as [j'|] eqn:Hfind; [|done].
  destruct (Nat.leb (String.length text) (j' + 1)); [done|].
  destruct (Py.item text (j' + 1)) as [new_code|]; [|done]. simpl in *.
  destruct (if Ascii.eqb new_code "[" then parse_csi text j' else None)
    as [[new_args k]|].
  - destruct (parse_loop fuel text k k _ _) as [segs'|] eqn:Hrec; [|done].
    erewrite IH; [done..|lia].
  - apply IH; [done | lia].
Qed.

(** With enough fuel the result does not depend on the fuel. *)
Lemma parse_loop_enough fuel fuel' text i j code args :
  String.length text ≤ j + fuel → String.length text ≤ j + fuel' →
  parse_loop (S fuel) text i j code args
  = parse_loop (S fuel') text i j code args.
Proof.
  intros H H'.
  destruct (parse_loop_total fuel text i j code args H) as [segs Hs].
  destruct (parse_loop_total fuel' text i j code args H') as [segs' Hs'].
  rewrite Hs, Hs'. destruct (Nat.le_ge_cases fuel fuel') as [Hle|Hle].
  - rewrite (parse_loop_fuel _ (S fuel') _ _ _ _ _ _ Hs) in Hs'; [done|lia].
  - rewrite (parse_loop_fuel _ (S fuel) _ _ _ _ _ _ Hs') in Hs; [done|lia].
Qed.

(** The loop only reads the text from its cursors on: in front of any
    prefix it behaves as on the text alone. *)
Lemma parse_loop_app fuel p t i j code args :
  i ≤ j →
  parse_loop fuel (p +:+ t) (String.length p + i) (String.length p + j)
    code args
  = parse_loop fuel t i j code args.
Proof.
  revert i j code args.
  induction fuel as [|fuel IH]; intros i j code args Hij; [done|].
  simpl. rewrite find_app.
  destruct (Py.find t ESC j) as [j'|] eqn:Hfind; simpl;
    [|by rewrite slice_from_app].
  apply find_ge in Hfind. rewrite length_app.
  replace (Nat.leb (String.length p + String.length t)
                   (String.length p + j' + 1))
    with (Nat.leb (String.length t) (j' + 1))
    by (apply eq_true_iff_eq; rewrite !Nat.leb_le; lia).
  destruct (Nat.leb (String.length t) (j' + 1));
    [by rewrite slice_from_app|].
  rewrite <- (Nat.add_assoc _ j' 1), <- (Nat.add_assoc _ j' 2), item_app.
  destruct (Py.item t (j' + 1)) as [new_code|]; [|done]. simpl.
  rewrite parse_csi_app.
  destruct (Ascii.eqb new_code "[");
    [destruct (parse_csi t j') as [[new_args k]|]; simpl|].
  - rewrite IH by done. rewrite slice_app by lia. done.
  - apply IH. lia.
  - apply IH. lia.
Qed.

(** Moving the start [i] of the segment being collected back from [i'] to
    [i] only puts [text[i:i']] in front of the next segment yielded. *)
Lemma parse_loop_prepend fuel text i i' j code args :
  i ≤ i' → i' ≤ j →
  parse_loop fuel text i j code args
  = prepend_text (Py.slice text i i') <$> parse_loop fuel text i' j code args.
Proof.
  revert i i' j code args.
  induction fuel as [|fuel IH]; intros i i' j code args Hi Hj; [done|].
  simpl.
  destruct (Py.find text ESC j) as [j'|] eqn:Hfind; simpl;
    [|by rewrite slice_slice_from].
  apply find_ge in Hfind.
  destruct (Nat.leb (String.length text) (j' + 1)); simpl;
    [by rewrite slice_slice_from|].
  destruct (Py.item text (j' + 1)) as [new_code|]; [|done]. simpl.
  destruct (if Ascii.eqb new_code "[" then parse_csi text j' else None)
    as [[new_args k]|].
  - destruct (parse_loop fuel text k k _ _) as [segs|]; [|done]. simpl.
    rewrite slice_slice by lia. done.
  - apply IH; lia.
Qed.

(** The first segment yielded carries the [code] and [args] the loop was
    entered with. *)
Lemma parse_loop_first fuel text i j code args segs :
  parse_loop fuel text i j code args = Some segs →
  ∃ t rest, segs = (code, args, t) :: rest.
Proof.
  revert i j segs.
  induction fuel as [|fuel IH]; intros i j segs; [done|].
  rewrite parse_loop_S. intros H.
  destruct (Py.find text ESC j) as [j'|]; [|simplify_eq; eauto].
  destruct (Nat.leb (String.length text) (j' + 1)); [simplify_eq; eauto|].
  destruct (Py.item text (j' + 1)) as [new_code|]; [|done]. simpl in H.
  destruct (if Ascii.eqb new_code "[" then parse_csi text j' else None)
    as [[new_args k]|]; [|by eapply IH].
  destruct (parse_loop fuel text k k _ _); simplify_eq/=; eauto.
Qed.

(** A successful match starts with ESC and an opening bracket. *)
Lemma parse_csi_start text j a k :
  parse_csi text j = Some (a, k) →
  Py.item text j = Some ESC ∧ Py.item text (j + 1) = Some "["%char
  ∧ j + 1 < String.length text.
Proof.
  unfold parse_csi. intros H.
  destruct (Py.slice_from text j) as [|e [|b rest]] eqn:Hs; try done.
  destruct (Ascii.eqb_spec e ESC) as [->|]; [|done].
  destruct (Ascii.eqb_spec b "["%char) as [->|]; [|done].
  pose proof (slice_from_length text j) as Hlen.
  rewrite Hs in Hlen; simpl in Hlen.
  rewrite (item_slice_from text j), (item_slice_from text (j + 1)).
  rewrite <- (slice_from_add text j 1), Hs. simpl. split_and!; [done..|lia].
Qed.

(** When every ESC from [j] on starts a CSI sequence, no segment text
    holds an ESC. *)
Lemma parse_loop_clean fuel text j code args segs :
  (∀ n, j ≤ n → Py.item text n = Some ESC → is_Some (parse_csi text n)) →
  parse_loop fuel text j j code args = Some segs →
  Forall (λ seg : segment, Py.find seg.2 ESC 0 = None) segs.
Proof.
  revert j code args segs.
  induction fuel as [|fuel IH]; intros j code args segs Hall; [done|].
  rewrite parse_loop_S.
  destruct (Py.find text ESC j) as [j'|] eqn:Hfind.
  2: { intros [= <-]. constructor; [|done].
       by apply find_slice_from_none. }
  destruct (Hall j') as [[new_args k] Hcsi];
    [apply find_ge in Hfind; lia | by apply find_item in Hfind|].
  destruct (parse_csi_start _ _ _ _ Hcsi) as (_ & Hitem & Hlen).
  destruct (Nat.leb_spec (String.length text) (j' + 1)); [lia|].
  rewrite Hitem. simpl. rewrite Hcsi.
  destruct (parse_loop fuel text k k _ _) as [segs'|] eqn:Hrec; [|done].
  intros [= <-]. constructor; [by eapply find_slice_none|].
  eapply IH; [|done]. intros n Hn. apply Hall.
  apply parse_csi_end in Hcsi. apply find_ge in Hfind. lia.
Qed.


Lemma parse_ansi_escapes_total text : is_Some (parse_ansi_escapes text).
Proof. apply parse_loop_total. lia. Qed.

Lemma strip_ansi_escapes_total text : is_Some (strip_ansi_escapes text).
Proof.
  unfold strip_ansi_escapes.
  destruct (parse_ansi_escapes_total text) as [segs ->]. by eexists.
Qed.



(** ESC [ 0 m in front of a text without ESC: the leading segment is
    empty and the text follows the sequence. *)
Lemma parse_reset_text t :
  Py.find t ESC 0 = None →
  parse_ansi_escapes (String ESC "[0m" +:+ t)
  = Some [(None, None, EmptyString);
          (Some "["%char, Some ("0", EmptyString, "m"), t)].
Proof.
  intros Ht.
  assert (∀ fuel code args,
    parse_loop fuel (String ESC "[0m" +:+ t) 4 4 code args
    = parse_loop fuel t 0 0 code args) as Happ
    by (intros; by apply (parse_loop_app _ (String ESC "[0m") t 0 0)).
  unfold parse_ansi_escapes. rewrite parse_loop_S.
  change (Py.find (String ESC "[0m" +:+ t) ESC 0) with (Some 0).
  cbv iota beta.
  change (Nat.leb (String.length (String ESC "[0m" +:+ t)) (0 + 1))
    with false.
  change (Py.item (String ESC "[0m" +:+ t) (0 + 1)) with (Some "["%char).
  cbn [mbind option_bind].
  change (Ascii.eqb "[" "[") with true.
  change (parse_csi (String ESC "[0m" +:+ t) 0)
    with (Some (("0", EmptyString, "m"), 4)).
  cbv iota beta.
  change (String.length (String ESC "[0m" +:+ t))
    with (S (S (S (S (String.length t))))).
  rewrite Happ, parse_loop_S, Ht. done.
Qed.

End tokenizer_facts.

(** ** The SGR interpreter *)

(** Case analysis on the six keys of [URWID_MODS]. *)
Ltac each_mod :=
  let mod_ := fresh "mod_" in
  let Hmod := fresh "Hmod" in
  intros mod_ Hmod; unfold URWID_MODS in Hmod;
  repeat (apply elem_of_cons in Hmod as [->|Hmod]);
  [by vm_compute..|by apply elem_of_nil in Hmod].

Section interpreter_facts.

Context {Focus Spec : Type} `{Countable Spec}.
Implicit Types (AttrSpec : string → string → option Spec).
Implicit Types (D : DefaultAttr) (attr : gmap string value).
Implicit Types (param_iter : list string) (st : @locals Focus Spec _ _).

(** One round of the loop over [param_iter]. *)
Lemma consume_params_cons D param param_iter attr :
  consume_params D (param :: param_iter) attr
  = if String.eqb param EmptyString || String.eqb param "0"
    then consume_params D param_iter (reset_attr D attr)
    else
      match ECODES !! param with
      | Some changes => consume_params D param_iter (changes ∪ attr)
      | None =>
          if bool_decide (param ∈ ["38"; "48"; "58"])
          then
            match param_iter with
            | [] => attr
            | color_type :: param_iter =>
                if String.eqb color_type "5"
                then
                  match param_iter with
                  | [] => attr
                  | color_index :: param_iter =>
                      consume_params D param_iter
                        (set_color param ("h" +:+ color_index) attr)
                  end
                else if String.eqb color_type "2"
                then
                  match param_iter with
                  | r :: g :: b :: param_iter =>
                      consume_params D param_iter
                        (set_color param (rgb_value r g b) attr)
                  | _ => attr
                  end
                else
                  consume_params D param_iter
                    (set_color param EmptyString attr)
            end
          else consume_params D param_iter attr
      end.
Proof. done. Qed.

(** A property of the dictionary that every update keeps holds after any
    parameter list. *)
Lemma consume_params_invariant D (P : gmap string value → Prop) :
  P (default_dict D) →
  (∀ param changes attr,
     ECODES !! param = Some changes → P attr → P (changes ∪ attr)) →
  (∀ param attr_value attr, P attr → P (set_color param attr_value attr)) →
  ∀ param_iter attr, P attr → P (consume_params D param_iter attr).
Proof.
  intros Hreset Hcodes Hcolor param_iter.
  induction param_iter as [param_iter IH] using (induction_ltof1 _ length).
  unfold ltof in IH. intros attr Hattr.
  destruct param_iter as [|param param_iter]; [done|].
  rewrite consume_params_cons.
  destruct (_ || _); [by apply IH; cbn [length]; [lia|]|].
  destruct (ECODES !! param) as [changes|] eqn:Hcode;
    [apply IH; cbn [length]; eauto|].
  destruct (bool_decide _); [|apply IH; cbn [length]; eauto].
  destruct param_iter as [|color_type param_iter]; [done|].
  destruct (String.eqb color_type "5");
    [destruct param_iter as [|color_index param_iter]; [done|];
     apply IH; cbn [length]; eauto with lia|].
  destruct (String.eqb color_type "2");
    [|apply IH; cbn [length]; eauto with lia].
  destruct param_iter as [|r [|g [|b param_iter]]]; try done.
  apply IH; cbn [length]; eauto with lia.
Qed.

(** The round of the loop for an extended-colour parameter. *)
Lemma consume_params_extended D param param_iter attr :
  param ∈ ["38"; "48"; "58"] →
  consume_params D (param :: param_iter) attr
  = match param_iter with
    | [] => attr
    | color_type :: param_iter =>
        if String.eqb color_type "5"
        then
          match param_iter with
          | [] => attr
          | color_index :: param_iter =>
              consume_params D param_iter
                (set_color param ("h" +:+ color_index) attr)
          end
        else if String.eqb color_type "2"
        then
          match param_iter with
          | r :: g :: b :: param_iter =>
              consume_params D param_iter
                (set_color param (rgb_value r g b) attr)
          | _ => attr
          end
        else consume_params D param_iter (set_color param EmptyString attr)
    end.
Proof.
  intros Hparam. rewrite consume_params_cons.
  rewrite bool_decide_eq_true_2 by done.
  repeat (apply elem_of_cons in Hparam as [->|Hparam]);
    [done..|by apply elem_of_nil in Hparam].
Qed.

(** With a value, 38 sets the foreground and 48 the background; 58 and an
    empty value change nothing. *)
Lemma set_color_38 attr_value attr :
  attr_value ≠ EmptyString →
  set_color "38" attr_value attr = <["fg" := VStr attr_value]> attr.
Proof.
  intros Hne%String.eqb_neq. unfold set_color. cbn [String.eqb Ascii.eqb].
  cbv [Bool.eqb negb andb]. rewrite Hne.
  by rewrite insert_union_singleton_l.
Qed.

Lemma set_color_48 attr_value attr :
  attr_value ≠ EmptyString →
  set_color "48" attr_value attr = <["bg" := VStr attr_value]> attr.
Proof.
  intros Hne%String.eqb_neq. unfold set_color. cbn [String.eqb Ascii.eqb].
  cbv [Bool.eqb negb andb]. rewrite Hne.
  by rewrite insert_union_singleton_l.
Qed.

Lemma set_color_empty param attr : set_color param EmptyString attr = attr.
Proof. unfold set_color. by rewrite andb_false_r. Qed.

Lemma update_attr_m D pb ib attr :
  update_attr D pb ib "m" attr = consume_params D (params_of pb) attr.
Proof. reflexivity. Qed.

Lemma consume_params_nil D attr : consume_params D [] attr = attr.
Proof. reflexivity. Qed.

(** The palette forms 38;5;n and 48;5;n. *)
Lemma consume_params_38_5 D color_index param_iter attr :
  consume_params D ("38" :: "5" :: color_index :: param_iter) attr
  = consume_params D param_iter
      (<["fg" := VStr ("h" +:+ color_index)]> attr).
Proof.
  rewrite consume_params_extended by set_solver.
  cbn [String.eqb Ascii.eqb Bool.eqb andb].
  by rewrite set_color_38.
Qed.

Lemma consume_params_48_5 D color_index param_iter attr :
  consume_params D ("48" :: "5" :: color_index :: param_iter) attr
  = consume_params D param_iter
      (<["bg" := VStr ("h" +:+ color_index)]> attr).
Proof.
  rewrite consume_params_extended by set_solver.
  cbn [String.eqb Ascii.eqb Bool.eqb andb].
  by rewrite set_color_48.
Qed.

(** The style flags of a run depend on the six keys of [URWID_MODS] only:
    a dictionary that agrees on them with the default one themes like it. *)
Lemma themed_by_flags D attr fg :
  (∀ mod_, mod_ ∈ URWID_MODS → attr !! mod_ = default_dict D !! mod_) →
  themed_by attr fg = themed D fg.
Proof.
  intros Hflags. unfold themed_by, themed, URWID_MODS. cbn [map].
  unfold mod_active. rewrite !Hflags by (unfold URWID_MODS; set_solver).
  by destruct D as [f b [] []].
Qed.

Lemma themed_by_default D fg : themed_by (default_dict D) fg = themed D fg.
Proof. by apply themed_by_flags. Qed.


(** The split of 38;5;n when [n] holds no semicolon. *)
Lemma params_of_38_5 n :
  Py.find n ";" 0 = None →
  params_of ("38;5;" +:+ n)
  = ["38"; "5"; if String.eqb n EmptyString then "0" else n].
Proof.
  intros Hn. unfold params_of.
  change (Py.split ";" ("38;5;" +:+ n))
    with ("38" :: "5" :: Py.split ";" n).
  by rewrite split_no_sep.
Qed.

(** The two-digit format on a byte. *)
Lemma format_02x_byte (n : N) : (n ≤ 255)%N → format_02x n = two_hex_digits n.
Proof.
  intros Hn.
  assert (forallb (λ k, String.eqb (format_02x (N.of_nat k))
                                   (two_hex_digits (N.of_nat k)))
                  (seq 0 256) = true) as Hall by (by vm_compute).
  rewrite forallb_forall in Hall.
  specialize (Hall (N.to_nat n)). rewrite N2Nat.id in Hall.
  apply String.eqb_eq, Hall, in_seq. lia.
Qed.





(** A non-empty infix is one call of [urwid.AttrSpec], on the colours and
    the flags of the dictionary, and one run when the call returns. *)
Lemma append_themed_infix_run AttrSpec D (F : Focus) pb st infix fg bg :
  infix ≠ EmptyString →
  attr st !! "fg" = Some (VStr fg) → attr st !! "bg" = Some (VStr bg) →
  append_themed_infix AttrSpec D F pb st infix
  = urwid_attr ← AttrSpec (themed_by (attr st) fg)
                          (if pb then bg else background D);
    Some {| urwid_text := urwid_text st ++ [(urwid_attr, infix)];
            urwid_focus := <[Some urwid_attr := F]> (urwid_focus st);
            attr := attr st |}.
Proof.
  intros Hinfix%String.eqb_neq Hfg Hbg. unfold append_themed_infix.
  rewrite Hinfix, Hfg, Hbg. cbn [mbind option_bind as_str].
  by destruct pb.
Qed.

(** What [append_themed_infix] has done to the locals when it returns. *)
Lemma append_themed_infix_inv AttrSpec D (F : Focus) pb st infix st' :
  append_themed_infix AttrSpec D F pb st infix = Some st' →
  attr st' = attr st
  ∧ (infix = EmptyString ∧ st' = st
     ∨ infix ≠ EmptyString
       ∧ ∃ fg bg a,
           AttrSpec fg bg = Some a
           ∧ (pb = false → bg = background D)
           ∧ urwid_text st' = urwid_text st ++ [(a, infix)]
           ∧ urwid_focus st' = <[Some a := F]> (urwid_focus st)).
Proof.
  unfold append_themed_infix.
  destruct (String.eqb_spec infix EmptyString) as [->|Hne].
  { intros [= <-]. split; [done|]. by left. }
  destruct (attr st !! "fg" ≫= as_str) as [fg|]; [|done].
  cbn [mbind option_bind].
  destruct (if pb then attr st !! "bg" ≫= as_str else Some (background D))
    as [bg|] eqn:Hbg; [|done].
  cbn [mbind option_bind].
  destruct (AttrSpec _ bg) as [a|] eqn:Ha; [|done].
  cbn [mbind option_bind]. intros [= <-]. split; [done|]. right.
  split; [done|]. eexists _, bg, a. split; [exact Ha|].
  split; [|done]. intros ->. by injection Hbg as <-.
Qed.


Lemma append_themed_infix_focus AttrSpec D (F : Focus) pb st infix st' :
  append_themed_infix AttrSpec D F pb st infix = Some st' →
  focus_ok F st → focus_ok F st'.
Proof.
  intros [_ [[_ ->] | (_ & fg & bg & a & _ & _ & Htext & Hfocus)]]
    %append_themed_infix_inv (Hnone & Hall & Hruns); [done|].
  unfold focus_ok. rewrite Htext, Hfocus. split_and!.
  - by rewrite lookup_insert_ne.
  - intros key v. rewrite lookup_insert. case_decide; [congruence|eauto].
  - intros a' t [Hin|Hin%list_elem_of_singleton]%elem_of_app.
    + rewrite lookup_insert. case_decide; eauto.
    + simplify_eq. by rewrite lookup_insert_eq.
Qed.

(** What the first half of the loop body does to the locals. *)
Lemma handle_segment_inv AttrSpec D (F : Focus) pb st (seg : segment) st' :
  handle_segment AttrSpec D F pb st seg = Some st' →
  ∃ attr0,
    (attr0 = attr st
     ∨ ∃ pbs ib fb, seg.1.2 = Some (pbs, ib, fb)
                    ∧ attr0 = update_attr D pbs ib fb (attr st))
    ∧ append_themed_infix AttrSpec D F pb
        {| urwid_text := urwid_text st; urwid_focus := urwid_focus st;
           attr := attr0 |} seg.2
      = Some st'.
Proof.
  destruct seg as [[code args] infix]. destruct st as [text focus attr0].
  unfold handle_segment. cbn [fst snd urwid_text urwid_focus attr].
  case_bool_decide.
  - destruct args as [[[pbs ib] fb]|]; [|done]. cbn [mbind option_bind].
    intros Hst'. eexists. split; [|exact Hst']. right. by eexists _, _, _.
  - cbn [mbind option_bind]. intros Hst'. eexists. split; [|exact Hst'].
    by left.
Qed.

Lemma handle_segment_focus AttrSpec D (F : Focus) pb st (seg : segment) st' :
  handle_segment AttrSpec D F pb st seg = Some st' →
  focus_ok F st → focus_ok F st'.
Proof.
  intros (attr0 & _ & Hst')%handle_segment_inv Hfocus.
  by eapply append_themed_infix_focus.
Qed.

Lemma for_segments_focus AttrSpec D (F : Focus) pb segs st st' :
  for_segments AttrSpec D F pb segs st = Some st' →
  focus_ok F st → focus_ok F st'.
Proof.
  revert st. induction segs as [|seg segs IH]; intros st; cbn [for_segments].
  { by intros [= <-]. }
  destruct (handle_segment AttrSpec D F pb st seg) as [st1|] eqn:Hst1;
    [|done].
  cbn [mbind option_bind]. eauto using handle_segment_focus.
Qed.




Lemma initial_locals_focus D (F : Focus) :
  focus_ok F (@initial_locals Focus Spec _ _ D F).
Proof.
  unfold focus_ok, initial_locals. cbn [urwid_focus urwid_text]. split_and!.
  - by rewrite lookup_singleton_eq.
  - intros key v [_ <-]%lookup_singleton_Some. done.
  - intros a t Hin. by apply elem_of_nil in Hin.
Qed.

(** The focus map of the locals the loop ends with. *)
Lemma final_locals_focus AttrSpec D (F : Focus) pb text st :
  final_locals AttrSpec D F pb text = Some st → focus_ok F st.
Proof.
  unfold final_locals.
  destruct (parse_ansi_escapes text) as [segs|]; [|done].
  cbn [mbind option_bind]. intros Hst.
  eapply for_segments_focus; [exact Hst | apply initial_locals_focus].
Qed.


(** A text made of one CSI sequence followed by non-empty text is one call
    of [urwid.AttrSpec], on the dictionary the sequence leaves, and one
    run. *)
Lemma parse_one_sequence AttrSpec D (F : Focus) pb text pbs ib fb infix fg bg :
  parse_ansi_escapes text
  = Some [(None, None, EmptyString);
          (Some "["%char, Some (pbs, ib, fb), infix)] →
  infix ≠ EmptyString →
  update_attr D pbs ib fb (default_dict D) !! "fg" = Some (VStr fg) →
  update_attr D pbs ib fb (default_dict D) !! "bg" = Some (VStr bg) →
  parse_escapes_to_urwid AttrSpec D F pb text
  = one_run AttrSpec F
      (themed_by (update_attr D pbs ib fb (default_dict D)) fg)
      (if pb then bg else background D) infix.
Proof.
  intros Hsegs Hinfix Hfg Hbg.
  unfold parse_escapes_to_urwid, final_locals. rewrite Hsegs.
  cbn [mbind option_bind for_segments].
  change (handle_segment AttrSpec D F pb (initial_locals D F)
            (None, None, EmptyString))
    with (Some (@initial_locals Focus Spec _ _ D F)).
  cbn [mbind option_bind]. unfold handle_segment.
  rewrite bool_decide_eq_true_2 by done.
  cbn [mbind option_bind].
  erewrite append_themed_infix_run; [|done|exact Hfg|exact Hbg].
  unfold one_run. cbn [attr].
  by destruct (AttrSpec _ _).
Qed.

(** The same when the sequence leaves the background and the style flags
    of the default dictionary in place. *)
Lemma parse_one_sequence_default
    AttrSpec D (F : Focus) pb text pbs ib fb infix fg :
  parse_ansi_escapes text
  = Some [(None, None, EmptyString);
          (Some "["%char, Some (pbs, ib, fb), infix)] →
  infix ≠ EmptyString →
  update_attr D pbs ib fb (default_dict D) !! "fg" = Some (VStr fg) →
  update_attr D pbs ib fb (default_dict D) !! "bg"
  = Some (VStr (background D)) →
  (∀ mod_, mod_ ∈ URWID_MODS →
     update_attr D pbs ib fb (default_dict D) !! mod_
     = default_dict D !! mod_) →
  parse_escapes_to_urwid AttrSpec D F pb text
  = one_run AttrSpec F (themed D fg) (background D) infix.
Proof.
  intros Hsegs Hinfix Hfg Hbg Hflags.
  rewrite (parse_one_sequence AttrSpec D F pb text pbs ib fb infix fg
             (background D)) by done.
  rewrite (themed_by_flags D) by done. by destruct pb.
Qed.


(** The text ESC [ 0 m followed by non-empty text without ESC. *)
Lemma parse_reset AttrSpec D (F : Focus) pb t :
  t ≠ EmptyString → Py.find t ESC 0 = None →
  parse_escapes_to_urwid AttrSpec D F pb (String ESC "[0m" +:+ t)
  = one_run AttrSpec F (themed D (foreground D)) (background D) t.
Proof.
  intros Ht Hclean.
  apply (parse_one_sequence_default AttrSpec D F pb _ "0" EmptyString "m");
    [by apply parse_reset_text | done | reflexivity..].
Qed.

End interpreter_facts.

(** ** The constructor of [Urwid] *)

(** The object [Urwid.AttrSpec] builds from a foreground that parses and a
    background that does. *)
Lemma AttrSpec_built (fg bg : string) (color bgc : Urwid.colour)
    (flags : list string) :
  Urwid.foreground_parts (Py.split "," fg) None [] = Some (color, flags) →
  Urwid.parse_color bg = Some bgc →
  Urwid.AttrSpec fg bg
  = Some (Urwid.mkSpec color
            (map (λ name, bool_decide (name ∈ flags)) Urwid._ATTRIBUTES)
            bgc).
Proof. intros Hfg Hbg. unfold Urwid.AttrSpec. by rewrite Hfg, Hbg. Qed.

(** ** Texts the stripper leaves alone *)

Section stripper_facts.

Implicit Types (s t p text : string) (c : ascii) (i j n : nat).

Lemma inert_no_esc_app p t :
  Py.find p ESC 0 = None → inert t → inert (p +:+ t).
Proof.
  induction p as [|c p IH]; [done|]. cbn [Py.find]. intros Hfind Ht.
  destruct (Ascii.eqb_spec c ESC) as [->|Hc]; [done|].
  cbn [String.append]. apply inert_plain; [done|]. apply IH; [|done].
  by destruct (Py.find p ESC 0).
Qed.

Lemma inert_no_esc t : Py.find t ESC 0 = None → inert t.
Proof.
  intros Hfind. rewrite <- (app_empty_r t).
  apply inert_no_esc_app; [done | constructor].
Qed.

(** Up to its first ESC an inert text is plain, and what starts there is
    inert. *)
Lemma inert_slice_from_find t n :
  inert t → Py.find t ESC 0 = Some n → inert (Py.slice_from t n).
Proof.
  revert n. induction t as [|c t IH]; intros n Ht; [done|]. cbn [Py.find].
  destruct (Ascii.eqb_spec c ESC) as [->|Hc]; [by intros [= <-]|].
  destruct (Py.find t ESC 0) as [m|] eqn:Hfind; [|done]. intros [= <-].
  cbn [Py.slice_from]. apply IH; [|done]. by inversion Ht; simplify_eq.
Qed.

Lemma slice_from_last s n c :
  Py.item s n = Some c → String.length s ≤ n + 1 →
  Py.slice_from s n = String c EmptyString.
Proof.
  revert n. induction s as [|a s IH]; intros [|n]; try done; simpl.
  - intros [= ->] Hlen. destruct s; [done | simpl in Hlen; lia].
  - intros Hitem Hlen. apply IH; [done | lia].
Qed.

Lemma slice_from_two s n a b :
  Py.item s n = Some a → Py.item s (n + 1) = Some b →
  Py.slice_from s n = String a (String b (Py.slice_from s (n + 2))).
Proof.
  revert n. induction s as [|x s IH]; intros [|n]; try done; simpl.
  - intros [= ->]. destruct s as [|y s]; [done|]. by intros [= ->].
  - apply IH.
Qed.

(** The tokenizer finds no sequence in an inert text. *)
Lemma parse_loop_inert fuel text i j code args :
  inert (Py.slice_from text j) →
  String.length text ≤ j + fuel →
  parse_loop (S fuel) text i j code args
  = Some [(code, args, Py.slice_from text i)].
Proof.
  revert j. induction fuel as [fuel IH] using lt_wf_ind. intros j Hinert Hlen.
  rewrite parse_loop_S.
  destruct (Py.find text ESC j) as [j'|] eqn:Hfind; [|done].
  destruct (Nat.leb_spec (String.length text) (j' + 1)) as [|Hlong]; [done|].
  pose proof (find_ge _ _ _ _ Hfind) as Hj'.
  pose proof (find_item _ _ _ _ Hfind) as Hesc.
  destruct (item_lt text (j' + 1)) as [c Hc]; [lia|].
  rewrite Hc. cbn [mbind option_bind].
  assert (inert (Py.slice_from text j')) as Hinert'.
  { rewrite find_slice_from in Hfind.
    destruct (Py.find (Py.slice_from text j) ESC 0) as [n|] eqn:Hn; [|done].
    injection Hfind as <-. rewrite <- slice_from_add.
    by apply inert_slice_from_find. }
  rewrite (slice_from_two text j' ESC c) in Hinert' by done.
  inversion Hinert' as [| |? ? Hne|c' t' Hbr Hrest]; simplify_eq.
  apply Ascii.eqb_neq in Hbr. rewrite Hbr.
  destruct fuel as [|fuel]; [lia|].
  apply IH; [lia | done | lia].
Qed.

Lemma strip_inert t : inert t → strip_ansi_escapes t = Some t.
Proof.
  intros Ht. unfold strip_ansi_escapes, parse_ansi_escapes.
  rewrite parse_loop_inert by (done || lia).
  cbn [mbind option_bind map snd Py.slice_from]. by rewrite join_cons, app_empty_r.
Qed.

(** When every ESC that an opening bracket follows opens a complete CSI
    sequence, what the tokenizer leaves is inert. *)
Lemma parse_loop_leaves_inert fuel text i j code args segs :
  (∀ n, Py.item text n = Some ESC → Py.item text (n + 1) = Some "["%char →
        is_Some (parse_csi text n)) →
  i ≤ j →
  (∀ t, inert t → inert (Py.slice text i j +:+ t)) →
  parse_loop fuel text i j code args = Some segs →
  inert (Py.join (map (λ seg : segment, seg.2) segs)).
Proof.
  intros Hall. revert i j code args segs.
  induction fuel as [|fuel IH]; intros i j code args segs Hij Hchunk; [done|].
  rewrite parse_loop_S.
  destruct (Py.find text ESC j) as [j'|] eqn:Hfind.
  2: { intros [= <-]. cbn [map snd]. rewrite join_cons.
       change (Py.join []) with EmptyString. rewrite app_empty_r.
       rewrite <- (slice_slice_from text i j) by done.
       apply Hchunk, inert_no_esc. by apply find_slice_from_none. }
  pose proof (find_ge _ _ _ _ Hfind) as Hj'.
  pose proof (find_item _ _ _ _ Hfind) as Hesc.
  assert (∀ t, inert t → inert (Py.slice text i j' +:+ t)) as Hchunk'.
  { intros t Ht. rewrite <- (slice_slice text i j j') by lia.
    rewrite app_assoc. apply Hchunk, inert_no_esc_app; [|done].
    by eapply find_slice_none. }
  destruct (Nat.leb_spec (String.length text) (j' + 1)) as [Hshort|Hlong].
  { intros [= <-]. cbn [map snd]. rewrite join_cons.
    change (Py.join []) with EmptyString. rewrite app_empty_r.
    rewrite <- (slice_slice_from text i j') by lia.
    rewrite (slice_from_last text j' ESC) by done.
    apply Hchunk'. constructor. }
  destruct (Py.item text (j' + 1)) as [c|] eqn:Hc; [|done].
  cbn [mbind option_bind].
  destruct (if Ascii.eqb c "[" then parse_csi text j' else None)
    as [[new_args k]|] eqn:Hargs.
  - destruct (parse_loop fuel text k k _ _) as [segs'|] eqn:Hrec; [|done].
    cbn [mbind option_bind]. intros [= <-]. cbn [map snd]. rewrite join_cons.
    apply Hchunk'. eapply IH; [| |exact Hrec]; [lia|].
    intros t Ht. unfold Py.slice. by rewrite Nat.sub_diag.
  - assert (c ≠ "["%char) as Hbr.
    { intros ->. rewrite Ascii.eqb_refl in Hargs.
      destruct (Hall j' Hesc Hc) as [? Hsome]. congruence. }
    apply IH; [lia|]. intros t Ht.
    rewrite <- (slice_slice text i j' (j' + 2)) by lia.
    rewrite (slice_two text j' ESC c) by done.
    rewrite app_assoc. apply Hchunk'. cbn [String.append].
    by apply inert_pair.
Qed.

Lemma strip_leaves_inert s :
  (∀ n, Py.item s n = Some ESC → Py.item s (n + 1) = Some "["%char →
        is_Some (parse_csi s n)) →
  ∃ t, strip_ansi_escapes s = Some t ∧ inert t.
Proof.
  intros Hall. destruct (parse_ansi_escapes_total s) as [segs Hsegs].
  unfold strip_ansi_escapes. rewrite Hsegs. cbn [mbind option_bind].
  eexists; split; [done|].
  eapply (parse_loop_leaves_inert _ s 0 0); [done|lia| |exact Hsegs].
  by intros t Ht.
Qed.

End stripper_facts.

(** * The claims *)

(** ** C1: idempotence of the stripper *)

(** C1 as stated does not hold.  In ESC [ ESC [ m m the first ESC opens no
    CSI sequence and stays in the text, the second one opens [ESC [ m], which
    is removed; what is left, ESC [ m, is itself a CSI sequence, so a second
    pass removes it. *)
Lemma strip_not_idempotent :
  strip_ansi_escapes (esc "[" +:+ esc "[mm") = Some (esc "[m")
  ∧ strip_ansi_escapes (esc "[m") = Some EmptyString
  ∧ strip_ansi_escapes (esc "[" +:+ esc "[mm") ≫= strip_ansi_escapes
    ≠ strip_ansi_escapes (esc "[" +:+ esc "[mm").
Proof. split_and!; [by vm_compute..|]. vm_compute. by intros [=]. Qed.

(** C1 (amended): when every ESC of the input that an opening bracket
    follows opens a complete CSI sequence, the stripper returns a text, and
    stripping that text again returns it unchanged.  The input may hold
    other ESC: one followed by another character, or one at its end. *)
Theorem strip_idempotent (s : string) :
  (∀ n, Py.item s n = Some ESC → Py.item s (n + 1) = Some "["%char →
        is_Some (parse_csi s n)) →
  ∃ t, strip_ansi_escapes s = Some t ∧ strip_ansi_escapes t = Some t.
Proof.
  intros Hall. destruct (strip_leaves_inert s Hall) as (t & Ht & Hinert).
  exists t. split; [done | by apply strip_inert].
Qed.

Lemma strip_idempotent_witness :
  ∃ t, strip_ansi_escapes (esc "]0;t" +:+ esc "[1mB" +:+ esc EmptyString)
       = Some t
       ∧ strip_ansi_escapes t = Some t.
Proof.
  apply (strip_idempotent (esc "]0;t" +:+ esc "[1mB" +:+ esc EmptyString)).
  intros n.
  do 11 (destruct n as [|n];
         [first [by vm_compute
                | intros _; by vm_compute
                | intros _ _; vm_compute; eauto]|]).
  by vm_compute.
Defined.

(** ** C2: unrecognized escapes *)

(** C2 as stated does not hold.  For the input ESC ] something the tokenizer
    yields one segment whose text is the whole input: ESC and the closing
    bracket are part of it, and of the stripped output. *)
Lemma unrecognized_escape_not_dropped :
  parse_ansi_escapes (esc "]something")
  = Some [(None, None, esc "]something")]
  ∧ strip_ansi_escapes (esc "]something") = Some (esc "]something")
  ∧ strip_ansi_escapes (esc "]something") ≠ Some "something".
Proof. split_and!; [by vm_compute..|]. vm_compute. by intros [=]. Qed.

(** C2 (amended): when the loop, collecting a segment from [i] and searching
    from [j], finds at [j'] an ESC whose next character [c] is not an opening
    bracket, or at which the CSI pattern does not match, it yields nothing for
    it and goes on two characters further.  The outcome is the one of a scan
    resumed at [j' + 2], except that the first segment yielded starts with
    [text[i:j']], ESC and [c]: the two characters are kept in the text. *)
Theorem unrecognized_escape_skipped
    (fuel : nat) (text : string) (i j j' : nat) (c : ascii)
    (code : option ascii) (args : option csi_args) :
  i ≤ j →
  Py.find text ESC j = Some j' →
  Py.item text (j' + 1) = Some c →
  c ≠ "["%char ∨ parse_csi text j' = None →
  String.length text ≤ j' + 2 + fuel →
  ∃ t rest,
    parse_loop (S fuel) text (j' + 2) (j' + 2) code args
    = Some ((code, args, t) :: rest)
    ∧ parse_loop (S (S fuel)) text i j code args
      = Some ((code, args,
               Py.slice text i j' +:+ String ESC (String c EmptyString) +:+ t)
              :: rest).
Proof.
  intros Hij Hfind Hitem Hun Hfuel.
  destruct (parse_loop_total fuel text (j' + 2) (j' + 2) code args Hfuel)
    as [segs Hsegs].
  destruct (parse_loop_first _ _ _ _ _ _ _ Hsegs) as (t & rest & ->).
  exists t, rest. split; [done|].
  rewrite parse_loop_S, Hfind.
  pose proof (item_Some_lt _ _ _ Hitem) as Hlen.
  destruct (Nat.leb_spec (String.length text) (j' + 1)); [lia|].
  rewrite Hitem. cbn [mbind option_bind].
  replace (if Ascii.eqb c "[" then parse_csi text j' else None)
    with (@None (csi_args * nat)).
  2: { destruct Hun as [Hc%Ascii.eqb_neq | Hcsi]; [by rewrite Hc|].
       by destruct (Ascii.eqb c "["). }
  pose proof (find_ge _ _ _ _ Hfind) as Hj'.
  rewrite (parse_loop_prepend _ _ i (j' + 2)) by lia.
  rewrite Hsegs. cbn [fmap option_fmap option_map prepend_text].
  rewrite <- (slice_slice text i j' (j' + 2)) by lia.
  rewrite (slice_two text j' ESC c) by eauto using find_item.
  by rewrite app_assoc.
Qed.

Lemma unrecognized_escape_skipped_witness :
  ∃ t rest,
    parse_loop 6 (esc "]some") 2 2 None None = Some ((None, None, t) :: rest)
    ∧ parse_loop 7 (esc "]some") 0 0 None None
      = Some ((None, None,
               Py.slice (esc "]some") 0 0
               +:+ String ESC (String "]" EmptyString) +:+ t) :: rest).
Proof.
  apply (unrecognized_escape_skipped 5 (esc "]some") 0 0 0 "]" None None).
  - lia.
  - reflexivity.
  - reflexivity.
  - left. by vm_compute.
  - vm_compute. lia.
Defined.

(** ** C3: errors in an extended-colour parameter *)

(** C3 as stated does not hold.  In the parameter list 38;7;1 the colour
    type 7 is neither 5 nor 2, and yet the parameter 1 that follows is
    applied: bold is off before and on after. *)
Lemma color_type_ignored_not_abandoned :
  let D := mkDefaultAttr "default" "default" false false in
  default_dict D !! "bold" = Some (VBool false)
  ∧ update_attr D "38;7;1" EmptyString "m" (default_dict D) !! "bold"
    = Some (VBool true).
Proof. by vm_compute. Qed.

(** C3 (amended): for a parameter 38, 48 or 58, when the list ends before
    the colour type, before the index of type 5 or before the third component
    of type 2, the loop stops there and the dictionary is as it was before
    that parameter; when the colour type is neither 5 nor 2, the parameter and
    its colour type change nothing and the loop goes on with the parameters
    that follow. *)
Theorem extended_color_errors
    (D : DefaultAttr) (param : string) (attr : gmap string value) :
  param ∈ ["38"; "48"; "58"] →
  consume_params D [param] attr = attr
  ∧ consume_params D [param; "5"] attr = attr
  ∧ (∀ components, length components < 3 →
       consume_params D (param :: "2" :: components) attr = attr)
  ∧ (∀ color_type param_iter,
       color_type ≠ "5" → color_type ≠ "2" →
       consume_params D (param :: color_type :: param_iter) attr
       = consume_params D param_iter attr).
Proof.
  intros Hparam. split_and!.
  - by rewrite consume_params_extended.
  - by rewrite consume_params_extended.
  - intros components Hlen. rewrite consume_params_extended by done.
    destruct components as [|r [|g [|b components]]]; simpl in *;
      [done..|lia].
  - intros color_type param_iter H5%String.eqb_neq H2%String.eqb_neq.
    rewrite consume_params_extended by done.
    by rewrite H5, H2, set_color_empty.
Qed.

Lemma extended_color_errors_witness :
  let D := mkDefaultAttr "default" "default" false false in
  consume_params D ["48"] (default_dict D) = default_dict D
  ∧ consume_params D ["48"; "5"] (default_dict D) = default_dict D
  ∧ (∀ components, length components < 3 →
       consume_params D ("48" :: "2" :: components) (default_dict D)
       = default_dict D)
  ∧ (∀ color_type param_iter,
       color_type ≠ "5" → color_type ≠ "2" →
       consume_params D ("48" :: color_type :: param_iter) (default_dict D)
       = consume_params D param_iter (default_dict D)).
Proof.
  intros D. apply (extended_color_errors D "48" (default_dict D)).
  apply (bool_decide_unpack _). by vm_compute.
Defined.

(** ** C5: what a reset restores *)

(** C5: a parameter that is empty or 0 replaces the dictionary, whatever it
    held, by the one built from [default_attr]: its foreground, background,
    bold and underline values, and its underline flag once more under the key
    standout; nothing else is left in it.  The same dictionary is the one the
    parse starts from. *)
Theorem reset_restores_default
    {Focus Spec : Type} `{Countable Spec}
    (AttrSpec : string → string → option Spec)
    (D : DefaultAttr) (F : Focus) (pb : bool)
    (param : string) (param_iter : list string) (dict : gmap string value) :
  param = EmptyString ∨ param = "0" →
  consume_params D (param :: param_iter) dict
  = consume_params D param_iter (reset_attr D dict)
  ∧ reset_attr D dict
    = {[ "fg" := VStr (foreground D);
         "bg" := VStr (background D);
         "bold" := VBool (bold D);
         "underline" := VBool (underline D);
         "standout" := VBool (underline D) ]}
  ∧ update_attr D EmptyString EmptyString "m" dict = reset_attr D dict
  ∧ update_attr D "0" EmptyString "m" dict = reset_attr D dict
  ∧ attr (initial_locals (Spec := Spec) D F) = reset_attr D dict
  ∧ final_locals AttrSpec D F pb EmptyString = Some (initial_locals D F).
Proof.
  intros Hparam. split_and!; try done.
  rewrite consume_params_cons. by destruct Hparam as [-> | ->].
Qed.

Lemma reset_restores_default_witness :
  let D := mkDefaultAttr "light gray,bold" "black" true false in
  let dirty : gmap string value :=
    {[ "fg" := VStr "dark red"; "blink" := VBool true ]} in
  consume_params D ["0"; "4"] dirty
  = consume_params D ["4"] (reset_attr D dirty)
  ∧ reset_attr D dirty
    = {[ "fg" := VStr "light gray,bold";
         "bg" := VStr "black";
         "bold" := VBool true;
         "underline" := VBool false;
         "standout" := VBool false ]}
  ∧ update_attr D EmptyString EmptyString "m" dirty = reset_attr D dirty
  ∧ update_attr D "0" EmptyString "m" dirty = reset_attr D dirty
  ∧ attr (initial_locals (Spec := Urwid.spec) D tt) = reset_attr D dirty
  ∧ final_locals Urwid.AttrSpec D tt true EmptyString
    = Some (initial_locals D tt).
Proof.
  intros D dirty.
  apply (reset_restores_default Urwid.AttrSpec D tt true "0" ["4"] dirty).
  by right.
Defined.

(** ** C9: the palette index is not validated *)

(** C9 as stated does not hold: the parse does not go on without error.
    The index 999 is stored as it is, and the description [h999] reaches
    [urwid.AttrSpec] with the text that follows; urwid has no such colour,
    and its error ends the parse. *)
Lemma invalid_index_raises :
  let D := mkDefaultAttr "default" "default" false false in
  update_attr D "38;5;999" EmptyString "m" (default_dict D) !! "fg"
  = Some (VStr "h999")
  ∧ Urwid.AttrSpec "h999" "default" = None
  ∧ parse_escapes_to_urwid Urwid.AttrSpec D tt true
      (String ESC "[38;5;999mX") = None.
Proof.
  intros D. split_and!; [by vm_compute | reflexivity |].
  rewrite (parse_one_sequence_default Urwid.AttrSpec D tt true _
             "38;5;999" EmptyString "m" "X" "h999");
    [reflexivity | by vm_compute | done | by vm_compute | by vm_compute
    | each_mod].
Qed.

(** C9 (amended): after 38;5 or 48;5 any parameter whatsoever is taken as
    it is by [update_attr]: the foreground, respectively the background,
    becomes the letter h followed by that parameter, and the loop goes on
    with the parameters that follow.  So 999 gives [h999], and a parameter
    that is no number, such as [1:2] or [foo], gives [h1:2] or [hfoo].  The
    description is checked by [urwid.AttrSpec] alone, when the next text is
    appended: ESC [ 38;5;999 m X is the call of [urwid.AttrSpec] on [h999]
    with the default flags, and is one run or the error of that call. *)
Theorem indexed_color_not_validated
    {Focus Spec : Type} `{Countable Spec}
    (AttrSpec : string → string → option Spec)
    (D : DefaultAttr) (F : Focus) (pb : bool)
    (t : string) (param_iter : list string) (attr : gmap string value) :
  consume_params D ("38" :: "5" :: t :: param_iter) attr
  = consume_params D param_iter (<["fg" := VStr ("h" +:+ t)]> attr)
  ∧ consume_params D ("48" :: "5" :: t :: param_iter) attr
    = consume_params D param_iter (<["bg" := VStr ("h" +:+ t)]> attr)
  ∧ update_attr D "38;5;999" EmptyString "m" attr
    = <["fg" := VStr "h999"]> attr
  ∧ update_attr D "48;5;1:2" EmptyString "m" attr
    = <["bg" := VStr "h1:2"]> attr
  ∧ consume_params D ["38"; "5"; "foo"] attr = <["fg" := VStr "hfoo"]> attr
  ∧ parse_escapes_to_urwid AttrSpec D F pb (String ESC "[38;5;999mX")
    = one_run AttrSpec F (themed D "h999") (background D) "X".
Proof.
  split; [apply consume_params_38_5|].
  split; [apply consume_params_48_5|].
  rewrite !update_attr_m.
  change (params_of "38;5;999") with ["38"; "5"; "999"].
  change (params_of "48;5;1:2") with ["48"; "5"; "1:2"].
  rewrite !consume_params_38_5, consume_params_48_5, !consume_params_nil.
  split_and!; [done..|].
  apply (parse_one_sequence_default AttrSpec D F pb _
           "38;5;999" EmptyString "m");
    [by vm_compute | done | by vm_compute | by vm_compute | each_mod].
Qed.

(** ** C10: the focus map *)

(** C10: in the mapping the parser returns, the key [None] and the
    attribute of every run are present, and every key there is maps to the
    caller's [default_attr_focus]. *)
Theorem focus_map_constant
    {Focus Spec : Type} `{Countable Spec}
    (AttrSpec : string → string → option Spec)
    (D : DefaultAttr) (F : Focus) (pb : bool) (text : string)
    (runs : list (Spec * string)) (focus : gmap (option Spec) Focus) :
  parse_escapes_to_urwid AttrSpec D F pb text = Some (runs, focus) →
  focus !! None = Some F
  ∧ (∀ a t, (a, t) ∈ runs → focus !! Some a = Some F)
  ∧ (∀ key v, focus !! key = Some v → v = F).
Proof.
  unfold parse_escapes_to_urwid.
  destruct (final_locals AttrSpec D F pb text) as [st|] eqn:Hst; [|done].
  intros [= <- <-].
  by destruct (final_locals_focus _ _ _ _ _ _ Hst) as (? & ? & ?).
Qed.

Lemma focus_map_constant_witness :
  let D := mkDefaultAttr "default" "default" false false in
  let plain :=
    Urwid.mkSpec Urwid.Default [false; false; false; false; false; false]
                 Urwid.Default in
  let bold_red :=
    Urwid.mkSpec (Urwid.Basic 1) [true; false; false; false; false; false]
                 Urwid.Default in
  let focus : gmap (option Urwid.spec) unit :=
    <[Some bold_red := tt]> (<[Some plain := tt]> {[None := tt]}) in
  focus !! None = Some tt
  ∧ (∀ a t, (a, t) ∈ [(plain, "A"); (bold_red, "B"); (plain, "C")] →
            focus !! Some a = Some tt)
  ∧ (∀ key v, focus !! key = Some v → v = tt).
Proof.
  intros D plain bold_red focus.
  apply (focus_map_constant Urwid.AttrSpec D tt true
           ("A" +:+ String ESC "[1;31mB" +:+ String ESC "[0mC")).
  reflexivity.
Defined.

(** ** C6: text without escapes *)




(** ** C4: the run after a reset *)

(** C4 at two default attributes.  For [urwid.AttrSpec('default',
    'default')] the run of ESC [ 0 m T carries the attribute built from the
    foreground and the background of the default one, as C4 says.  For
    [urwid.AttrSpec('default,bold', 'default')] there is no run: the
    foreground of this default attribute reads [default,bold], the code adds
    the bold flag of the dictionary to it, and [urwid.AttrSpec] refuses a
    setting given twice. *)
Theorem reset_run_of_bold_default_raises :
  let D0 := mkDefaultAttr "default" "default" false false in
  let D := mkDefaultAttr "default,bold" "default" true false in
  (∃ d0, Urwid.AttrSpec (foreground D0) (background D0) = Some d0
         ∧ parse_escapes_to_urwid Urwid.AttrSpec D0 tt true
             (String ESC "[0mT")
           = Some ([(d0, "T")], <[Some d0 := tt]> {[None := tt]}))
  ∧ is_Some (Urwid.AttrSpec (foreground D) (background D))
  ∧ themed D (foreground D) = "default,bold,bold"
  ∧ Urwid.AttrSpec "default,bold,bold" "default" = None
  ∧ parse_escapes_to_urwid Urwid.AttrSpec D tt true (String ESC "[0mT")
    = None.
Proof.
  intros D0 D.
  rewrite !(parse_reset Urwid.AttrSpec _ tt true "T") by done.
  split_and!; [by eexists | by eexists | reflexivity..].
Qed.

(** ** C7: truecolor *)

(** C7 as stated does not hold for a component above 255: the format gives
    it as many digits as it needs, and 38;2;256;0;0 sets a foreground of
    seven hexadecimal digits. *)
Lemma truecolor_component_above_255 :
  let D := mkDefaultAttr "default" "default" false false in
  int "256" = Some 256%N
  ∧ update_attr D "38;2;256;0;0" EmptyString "m" (default_dict D) !! "fg"
    = Some (VStr "#1000000").
Proof. intros D. split; by vm_compute. Qed.

(** C7 (amended): for 38;2;r;g;b whose components are integers from 0 to
    255, the foreground becomes the number sign followed by two lowercase
    hexadecimal digits for each component, and the loop goes on with the
    parameters that follow; ESC [ 38;2;10;20;30 m X is the call of
    [urwid.AttrSpec] on the foreground colour [#0a141e] with the default
    flags, and is one run or the error of that call. *)
Theorem truecolor_foreground
    {Focus Spec : Type} `{Countable Spec}
    (AttrSpec : string → string → option Spec)
    (D : DefaultAttr) (F : Focus) (pb : bool)
    (r g b : string) (rn gn bn : N)
    (param_iter : list string) (attr : gmap string value) :
  int r = Some rn → int g = Some gn → int b = Some bn →
  (rn ≤ 255)%N → (gn ≤ 255)%N → (bn ≤ 255)%N →
  consume_params D ("38" :: "2" :: r :: g :: b :: param_iter) attr
  = consume_params D param_iter
      (<["fg" := VStr ("#" +:+ two_hex_digits rn +:+ two_hex_digits gn
                       +:+ two_hex_digits bn)]> attr)
  ∧ parse_escapes_to_urwid AttrSpec D F pb (String ESC "[38;2;10;20;30mX")
    = one_run AttrSpec F (themed D "#0a141e") (background D) "X".
Proof.
  intros Hr Hg Hb Hrn Hgn Hbn. split.
  - rewrite consume_params_extended by set_solver.
    cbn [String.eqb Ascii.eqb Bool.eqb andb]. unfold rgb_value.
    rewrite Hr, Hg, Hb, !format_02x_byte by done.
    by rewrite set_color_38.
  - apply (parse_one_sequence_default AttrSpec D F pb _
             "38;2;10;20;30" EmptyString "m");
      [by vm_compute | done | by vm_compute | by vm_compute | each_mod].
Qed.

Lemma truecolor_foreground_witness :
  let D := mkDefaultAttr "default" "default" false false in
  consume_params D ["38"; "2"; "255"; "0"; "16"; "1"] (default_dict D)
  = consume_params D ["1"]
      (<["fg" := VStr ("#" +:+ two_hex_digits 255 +:+ two_hex_digits 0
                       +:+ two_hex_digits 16)]> (default_dict D))
  ∧ parse_escapes_to_urwid Urwid.AttrSpec D tt true
      (String ESC "[38;2;10;20;30mX")
    = one_run Urwid.AttrSpec tt (themed D "#0a141e") (background D) "X".
Proof.
  intros D.
  apply (truecolor_foreground Urwid.AttrSpec D tt true "255" "0" "16"
           255 0 16 ["1"] (default_dict D));
    solve [reflexivity | by vm_compute].
Defined.

(** ** C8: indexed colour *)

(** C8: for 38;5;n, where the parameter [n] holds no semicolon, the
    foreground becomes the letter h followed by [n] (by 0 when [n] is empty,
    as for every empty parameter); ESC [ 38;5;200 m X is the call of
    [urwid.AttrSpec] on the foreground colour [h200] with the default flags
    and on the default background, and is one run, the text X under the
    attribute built, or the error of that call.  With the constructor of
    [Urwid] the call returns for every default attribute whose background it
    takes: the run has the palette colour 200, the bold flag of the default
    attribute, and its underline flag for both underline and standout. *)
Theorem indexed_foreground
    {Focus Spec : Type} `{Countable Spec}
    (AttrSpec : string → string → option Spec)
    (D : DefaultAttr) (F : Focus) (pb : bool)
    (n ib : string) (attr : gmap string value) :
  Py.find n ";" 0 = None →
  update_attr D ("38;5;" +:+ n) ib "m" attr
  = <["fg" := VStr ("h" +:+ if String.eqb n EmptyString then "0" else n)]>
      attr
  ∧ parse_escapes_to_urwid AttrSpec D F pb (String ESC "[38;5;200mX")
    = one_run AttrSpec F (themed D "h200") (background D) "X"
  ∧ ∀ bgc,
      Urwid.parse_color (background D) = Some bgc →
      parse_escapes_to_urwid Urwid.AttrSpec D F pb (String ESC "[38;5;200mX")
      = let urwid_attr :=
          Urwid.mkSpec (Urwid.High 200)
            [bold D; false; underline D; false; underline D; false] bgc in
        Some ([(urwid_attr, "X")], <[Some urwid_attr := F]> {[None := F]}).
Proof.
  intros Hn.
  assert (∀ (Spec' : Type) `(Countable Spec')
            (AttrSpec' : string → string → option Spec'),
    parse_escapes_to_urwid AttrSpec' D F pb (String ESC "[38;5;200mX")
    = one_run AttrSpec' F (themed D "h200") (background D) "X") as Hrun.
  { intros Spec' ? ? AttrSpec'.
    apply (parse_one_sequence_default AttrSpec' D F pb _
             "38;5;200" EmptyString "m");
      [by vm_compute | done | by vm_compute | by vm_compute | each_mod]. }
  split_and!.
  - by rewrite update_attr_m, params_of_38_5, consume_params_38_5.
  - apply Hrun.
  - intros bgc Hbg. rewrite Hrun. unfold one_run.
    destruct D as [f b [] []]; cbn [background bold underline] in *;
      (erewrite AttrSpec_built; [|reflexivity|exact Hbg]; reflexivity).
Qed.

Lemma indexed_foreground_witness :
  let D := mkDefaultAttr "default" "default" false false in
  update_attr D ("38;5;" +:+ "200") EmptyString "m" (default_dict D)
  = <["fg" := VStr ("h" +:+ if String.eqb "200" EmptyString
                            then "0" else "200")]> (default_dict D)
  ∧ parse_escapes_to_urwid Urwid.AttrSpec D tt true
      (String ESC "[38;5;200mX")
    = one_run Urwid.AttrSpec tt (themed D "h200") (background D) "X"
  ∧ ∀ bgc,
      Urwid.parse_color (background D) = Some bgc →
      parse_escapes_to_urwid Urwid.AttrSpec D tt true
        (String ESC "[38;5;200mX")
      = let urwid_attr :=
          Urwid.mkSpec (Urwid.High 200)
            [bold D; false; underline D; false; underline D; false] bgc in
        Some ([(urwid_attr, "X")], <[Some urwid_attr := tt]> {[None := tt]}).
Proof.
  intros D.
  apply (indexed_foreground Urwid.AttrSpec D tt true "200" EmptyString
           (default_dict D)).
  reflexivity.
Defined.

(** * Further properties *)

(** ** The CSI matcher *)

Section matcher_facts.

Implicit Types (s t p : string) (c : ascii) (n : nat).

Lemma span_le cls s : span cls s ≤ String.length s.
Proof.
  induction s as [|a s IH]; simpl; [done|]. destruct (cls a); lia.
Qed.

Lemma span_all_in cls s : all_in cls (Py.slice_to s (span cls s)) = true.
Proof.
  induction s as [|a s IH]; simpl; [done|].
  destruct (cls a) eqn:Ha; simpl; [by rewrite Ha|done].
Qed.

Lemma slice_to_length s n :
  n ≤ String.length s → String.length (Py.slice_to s n) = n.
Proof.
  revert s; induction n as [|n IH]; intros [|a s] H; simpl in *;
    try done; try lia.
  rewrite IH; [done | lia].
Qed.

Lemma slice_to_app_length p t : Py.slice_to (p +:+ t) (String.length p) = p.
Proof. induction p as [|a p IH]; simpl; [done | by rewrite IH]. Qed.

Lemma slice_to_item s n c :
  Py.item s n = Some c →
  Py.slice_to (Py.slice_from s n) 1 = String c EmptyString.
Proof.
  revert s; induction n as [|n IH]; intros [|a s]; simpl; try done.
  - by intros [= ->].
  - apply IH.
Qed.

Lemma span_app cls s t :
  all_in cls s = true → span cls (s +:+ t) = String.length s + span cls t.
Proof.
  induction s as [|a s IH]; simpl; [done|].
  intros [-> Hs]%andb_true_iff. by rewrite IH.
Qed.

(** A run of characters of class [q] followed by [c] starts with a
    character outside [cls] when [q] and [c] are outside [cls]. *)
Lemma span_stop cls q s c t :
  (∀ x, q x = true → cls x = false) → all_in q s = true → cls c = false →
  span cls (s +:+ String c t) = 0.
Proof.
  intros Hq Hs Hc. destruct s as [|a s]; simpl in *; [by rewrite Hc|].
  apply andb_true_iff in Hs as [Ha _]. by rewrite (Hq a Ha).
Qed.

Lemma item_app_length p c t :
  Py.item (p +:+ String c t) (String.length p) = Some c.
Proof. induction p as [|a p IH]; simpl; [done | apply IH]. Qed.

Lemma slice_from_app_length p t :
  Py.slice_from (p +:+ t) (String.length p) = t.
Proof. induction p as [|a p IH]; simpl; [done | apply IH]. Qed.

(** What a match of the pattern returns, spelled out. *)
Lemma parse_csi_inv text pos a k :
  parse_csi text pos = Some (a, k) →
  ∃ rest c,
    Py.slice_from text pos = String ESC (String "[" rest)
    ∧ Py.item rest (span _b2 rest + span _b3 (Py.slice_from rest (span _b2 rest)))
      = Some c
    ∧ _b4 c = true
    ∧ a = (Py.slice_to rest (span _b2 rest),
           Py.slice_to (Py.slice_from rest (span _b2 rest))
             (span _b3 (Py.slice_from rest (span _b2 rest))),
           String c EmptyString)
    ∧ k = pos + 2 + span _b2 rest
          + span _b3 (Py.slice_from rest (span _b2 rest)) + 1.
Proof.
  unfold parse_csi. intros H.
  destruct (Py.slice_from text pos) as [|e [|b rest]]; try done.
  destruct (Ascii.eqb_spec e ESC) as [->|]; [|done].
  destruct (Ascii.eqb_spec b "["%char) as [->|]; [|done].
  cbn [andb] in H.
  destruct (Py.item rest _) as [c|] eqn:Hc; [|done].
  destruct (_b4 c) eqn:Hfb; [|done].
  injection H as <- <-. exists rest, c. split_and!; try done.
  unfold Py.slice. cbn [Py.slice_from]. do 2 f_equal; f_equal; lia.
Qed.

Lemma b3_not_b2 c : _b3 c = true → _b2 c = false.
Proof.
  intros H. destruct (csi_classes_disjoint c) as (H23 & _ & _).
  rewrite H, andb_true_r in H23. done.
Qed.

Lemma b4_not_b2 c : _b4 c = true → _b2 c = false.
Proof.
  intros H. destruct (csi_classes_disjoint c) as (_ & H24 & _).
  rewrite H, andb_true_r in H24. done.
Qed.

Lemma b4_not_b3 c : _b4 c = true → _b3 c = false.
Proof.
  intros H. destruct (csi_classes_disjoint c) as (_ & _ & H34).
  rewrite H, andb_true_r in H34. done.
Qed.

(** The groups of a match are in their classes, and the text the match
    spans is the sequence written out from them. *)
Lemma parse_csi_groups text pos a k :
  parse_csi text pos = Some (a, k) →
  (∃ c, a.2 = String c EmptyString ∧ _b4 c = true)
  ∧ all_in _b2 a.1.1 = true ∧ all_in _b3 a.1.2 = true
  ∧ Py.slice text pos k = csi_text a.
Proof.
  intros (rest & c & Hfrom & Hc & Hfb & -> & ->)%parse_csi_inv.
  cbn [fst snd]. split; [by exists c|].
  split; [apply span_all_in|]. split; [apply span_all_in|].
  set (n2 := span _b2 rest) in *.
  set (n3 := span _b3 (Py.slice_from rest n2)) in *.
  unfold Py.slice, csi_text. rewrite Hfrom. cbn [fst snd].
  replace (pos + 2 + n2 + n3 + 1 - pos) with (S (S (n2 + (n3 + 1)))) by lia.
  cbn [Py.slice_to]. do 2 f_equal.
  rewrite <- slice_to_add, <- slice_to_add, slice_from_add.
  by rewrite (slice_to_item _ _ _ Hc).
Qed.

End matcher_facts.

(** X1: a match of the CSI pattern at [pos] returns parameter bytes,
    intermediate bytes and one final byte, each in its class; the text from
    [pos] to the end [k] of the match is ESC, the opening bracket and the
    three groups one after the other, so [k] is [pos] plus three plus the
    lengths of the first two groups, and it lies inside the text. *)
Theorem parse_csi_sound
    (text : string) (pos : nat) (pb ib fb : string) (k : nat) :
  parse_csi text pos = Some ((pb, ib, fb), k) →
  all_in _b2 pb = true ∧ all_in _b3 ib = true
  ∧ (∃ c, fb = String c EmptyString ∧ _b4 c = true)
  ∧ Py.slice text pos k = String ESC (String "[" (pb +:+ ib +:+ fb))
  ∧ k = pos + 3 + String.length pb + String.length ib
  ∧ k ≤ String.length text.
Proof.
  intros H.
  destruct (parse_csi_groups _ _ _ _ H) as (Hfb & Hpb & Hib & Hslice).
  split; [done|]. split; [done|]. split; [done|]. split; [done|].
  apply parse_csi_inv in H as (rest & c & Hfrom & Hc & _ & [= -> -> ->] & ->).
  pose proof (span_le _b2 rest) as Hn2.
  pose proof (span_le _b3 (Py.slice_from rest (span _b2 rest))) as Hn3.
  rewrite slice_from_length in Hn3.
  rewrite !slice_to_length by (rewrite ?slice_from_length; lia).
  apply item_Some_lt in Hc.
  pose proof (slice_from_length text pos) as Hlen.
  rewrite Hfrom in Hlen. cbn [String.length] in Hlen. lia.
Qed.

Lemma parse_csi_sound_witness :
  all_in _b2 "1;31" = true ∧ all_in _b3 EmptyString = true
  ∧ (∃ c, "m" = String c EmptyString ∧ _b4 c = true)
  ∧ Py.slice (esc "[1;31mred") 0 7
    = String ESC (String "[" ("1;31" +:+ EmptyString +:+ "m"))
  ∧ 7 = 0 + 3 + String.length "1;31" + String.length EmptyString
  ∧ 7 ≤ String.length (esc "[1;31mred").
Proof.
  apply (parse_csi_sound (esc "[1;31mred") 0 "1;31" EmptyString "m" 7).
  reflexivity.
Defined.

(** The pattern matches a sequence that stands at the start of a text. *)
Lemma parse_csi_leading (pb ib : string) (c : ascii) (rest : string) :
  all_in _b2 pb = true → all_in _b3 ib = true → _b4 c = true →
  parse_csi (csi_text (pb, ib, String c EmptyString) +:+ rest) 0
  = Some ((pb, ib, String c EmptyString),
          3 + String.length pb + String.length ib).
Proof.
  intros Hpb Hib Hc.
  assert (span _b2 (pb +:+ ib +:+ String c rest) = String.length pb) as Hn2.
  { rewrite span_app by done.
    rewrite (span_stop _b2 _b3) by auto using b3_not_b2, b4_not_b2. lia. }
  assert (span _b3 (ib +:+ String c rest) = String.length ib) as Hn3.
  { rewrite span_app by done. simpl. rewrite b4_not_b3 by done. lia. }
  unfold parse_csi, csi_text. cbn [fst snd Py.slice_from String.append].
  rewrite !app_assoc. cbn [String.append].
  rewrite !Ascii.eqb_refl. cbn [andb].
  rewrite Hn2, slice_from_app_length, Hn3, item_app.
  rewrite item_app_length, Hc.
  unfold Py.slice. cbn [Py.slice_from].
  rewrite Nat.sub_0_r, slice_to_app_length, slice_from_app_length.
  replace (String.length pb + String.length ib - String.length pb)
    with (String.length ib) by lia.
  rewrite slice_to_app_length. do 2 f_equal. lia.
Qed.

(** X2: wherever ESC, an opening bracket, parameter bytes, intermediate
    bytes and a final byte stand in a text, the pattern matches there and
    returns exactly these three groups, whatever comes before and after. *)
Theorem parse_csi_complete
    (p pb ib : string) (c : ascii) (rest : string) :
  all_in _b2 pb = true → all_in _b3 ib = true → _b4 c = true →
  parse_csi (p +:+ csi_text (pb, ib, String c EmptyString) +:+ rest)
            (String.length p)
  = Some ((pb, ib, String c EmptyString),
          String.length p + 3 + String.length pb + String.length ib).
Proof.
  intros Hpb Hib Hc.
  rewrite <- (Nat.add_0_r (String.length p)) at 1.
  rewrite parse_csi_app, parse_csi_leading by done.
  cbn [fmap option_fmap option_map]. do 2 f_equal. lia.
Qed.

Lemma parse_csi_complete_witness :
  parse_csi ("ab" +:+ csi_text ("38;5;1", " ", "m") +:+ "tail")
            (String.length "ab")
  = Some (("38;5;1", " ", "m"),
          String.length "ab" + 3 + String.length "38;5;1" + String.length " ").
Proof.
  apply (parse_csi_complete "ab" "38;5;1" " " "m" "tail"); reflexivity.
Defined.

(** ** The tokenizer as a whole *)

Section tokenizer_more.

Implicit Types (text p t : string) (i j k fuel : nat).
Implicit Types (code : option ascii) (args : option csi_args).

Lemma find_prefix p t c :
  Py.find p c 0 = None →
  Py.find (p +:+ t) c 0 = Py.find (p +:+ t) c (String.length p + 0).
Proof.
  intros Hp. rewrite find_app. induction p as [|a p IH]; simpl in *.
  - by destruct (Py.find t c 0).
  - destruct (Ascii.eqb a c); [done|].
    destruct (Py.find p c 0); [done|]. rewrite IH by done.
    by destruct (Py.find t c 0).
Qed.

(** The loop uses its search cursor only to look for the next ESC. *)
Lemma parse_loop_cursor fuel text i j j2 code args :
  Py.find text ESC j = Py.find text ESC j2 →
  parse_loop (S fuel) text i j code args
  = parse_loop (S fuel) text i j2 code args.
Proof. intros H. by rewrite !parse_loop_S, H. Qed.

(** The texts yielded do not depend on the code and groups the loop is
    entered with. *)
Lemma parse_loop_texts fuel text i j code args code' args' :
  map (λ seg : segment, seg.2) <$> parse_loop fuel text i j code args
  = map (λ seg : segment, seg.2) <$> parse_loop fuel text i j code' args'.
Proof.
  revert i j code args code' args'.
  induction fuel as [|fuel IH]; intros i j code args code' args'; [done|].
  rewrite !parse_loop_S.
  destruct (Py.find text ESC j) as [j'|]; [|done].
  destruct (Nat.leb (String.length text) (j' + 1)); [done|].
  destruct (Py.item text (j' + 1)) as [new_code|]; [|done].
  cbn [mbind option_bind].
  destruct (if Ascii.eqb new_code "[" then parse_csi text j' else None)
    as [[new_args k]|]; [|apply IH].
  by destruct (parse_loop fuel text k k _ _).
Qed.

(** What the loop yields from [i] on accounts for the text from [i] on: the
    text of the first segment, then every later segment with the sequence it
    follows; and every later segment follows a CSI sequence. *)
Lemma parse_loop_source fuel text i j code args segs :
  i ≤ j → parse_loop fuel text i j code args = Some segs →
  ∃ t0 rest,
    segs = (code, args, t0) :: rest
    ∧ t0 +:+ Py.join (map segment_source rest) = Py.slice_from text i
    ∧ Forall csi_segment rest.
Proof.
  revert i j code args segs.
  induction fuel as [|fuel IH]; intros i j code args segs Hij; [done|].
  rewrite parse_loop_S.
  destruct (Py.find text ESC j) as [j'|] eqn:Hfind.
  2: { intros [= <-]. eexists _, []. by rewrite app_empty_r. }
  apply find_ge in Hfind.
  destruct (Nat.leb (String.length text) (j' + 1)).
  { intros [= <-]. eexists _, []. by rewrite app_empty_r. }
  destruct (Py.item text (j' + 1)) as [new_code|]; [|done].
  cbn [mbind option_bind].
  destruct (if Ascii.eqb new_code "[" then parse_csi text j' else None)
    as [[new_args k]|] eqn:Hcsi; [|apply IH; lia].
  destruct (Ascii.eqb_spec new_code "["%char) as [->|]; [|done].
  destruct (parse_loop fuel text k k _ _) as [segs'|] eqn:Hrec; [|done].
  intros [= <-].
  destruct (IH _ _ _ _ _ (Nat.le_refl k) Hrec)
    as (t1 & rest & -> & Hsrc & Hrest).
  destruct (parse_csi_groups _ _ _ _ Hcsi) as ((c & Hc & Hfb) & Hpb & Hib & Hsl).
  pose proof (parse_csi_end _ _ _ _ Hcsi) as Hk.
  eexists _, _. split; [done|]. split.
  - cbn [map]. rewrite join_cons. unfold segment_source at 1. cbn [fst snd].
    rewrite app_assoc, Hsrc, <- Hsl.
    rewrite (slice_slice_from text j' k) by lia.
    apply slice_slice_from. lia.
  - constructor; [|done]. split; [done|].
    destruct new_args as [[pb ib] fb]. cbn [fst snd] in *. subst fb.
    by exists pb, ib, c.
Qed.

Lemma strip_of_loop text segs :
  parse_ansi_escapes text = Some segs →
  strip_ansi_escapes text = Some (Py.join (map (λ seg : segment, seg.2) segs)).
Proof. intros H. unfold strip_ansi_escapes. by rewrite H. Qed.

(** The sequence a segment follows only adds to its length. *)
Lemma source_length_le (rest : list segment) :
  String.length (Py.join (map (λ seg : segment, seg.2) rest))
  ≤ String.length (Py.join (map segment_source rest)).
Proof.
  induction rest as [|seg rest IH]; [done|].
  cbn [map]. rewrite !join_cons, !length_app. unfold segment_source at 1.
  destruct (seg.1.2); [rewrite length_app|]; lia.
Qed.

Lemma source_length_lt (rest : list segment) :
  Forall csi_segment rest → rest ≠ [] →
  String.length (Py.join (map (λ seg : segment, seg.2) rest))
  < String.length (Py.join (map segment_source rest)).
Proof.
  intros Hrest Hne. destruct Hrest as [|seg rest Hseg _]; [done|].
  cbn [map]. rewrite !join_cons, !length_app.
  pose proof (source_length_le rest).
  destruct Hseg as (_ & pb & ib & c & Hargs & _).
  unfold segment_source at 1.
  rewrite Hargs, length_app. unfold csi_text. cbn [String.length]. lia.
Qed.

(** Text in front of the first ESC goes to the first segment. *)
Lemma parse_plain_prefix p t :
  Py.find p ESC 0 = None →
  parse_ansi_escapes (p +:+ t) = prepend_text p <$> parse_ansi_escapes t.
Proof.
  intros Hp. unfold parse_ansi_escapes.
  rewrite (parse_loop_cursor _ _ _ 0 (String.length p + 0))
    by by apply find_prefix.
  rewrite (parse_loop_prepend _ _ 0 (String.length p + 0)) by lia.
  rewrite (parse_loop_app _ p t 0 0) by lia.
  rewrite (parse_loop_enough _ (String.length t) t) by (rewrite ?length_app; lia).
  unfold Py.slice. cbn [Py.slice_from].
  by rewrite Nat.add_0_r, Nat.sub_0_r, slice_to_app_length.
Qed.

End tokenizer_more.

(** X3: nothing of the input is lost by the tokenizer.  Writing every
    segment as the CSI sequence it follows (none for the first one) and then
    its text, one after the other, gives back the input. *)
Theorem tokenizer_reconstructs (text : string) :
  ∃ segs,
    parse_ansi_escapes text = Some segs
    ∧ Py.join (map segment_source segs) = text.
Proof.
  destruct (parse_ansi_escapes_total text) as [segs Hsegs].
  exists segs. split; [done|].
  destruct (parse_loop_source _ _ 0 0 _ _ _ (Nat.le_refl 0) Hsegs)
    as (t0 & rest & -> & Hsrc & _).
  cbn [map]. by rewrite join_cons.
Qed.

(** X4: the generator always yields at least one segment.  The first one
    has neither code nor groups; every other one has the opening bracket as
    code and three groups, parameter bytes, intermediate bytes and a single
    final byte. *)
Theorem segments_shape (text : string) :
  ∃ t0 rest,
    parse_ansi_escapes text = Some ((None, None, t0) :: rest)
    ∧ Forall csi_segment rest.
Proof.
  destruct (parse_ansi_escapes_total text) as [segs Hsegs].
  destruct (parse_loop_source _ _ 0 0 _ _ _ (Nat.le_refl 0) Hsegs)
    as (t0 & rest & -> & _ & Hrest).
  by exists t0, rest.
Qed.

(** X5: stripping never makes a text longer, and a text it leaves at the
    same length is left unchanged. *)
Theorem strip_never_grows (text : string) :
  ∃ t,
    strip_ansi_escapes text = Some t
    ∧ String.length t ≤ String.length text
    ∧ (String.length t = String.length text → t = text).
Proof.
  destruct (parse_ansi_escapes_total text) as [segs Hsegs].
  rewrite (strip_of_loop _ _ Hsegs). eexists; split; [done|].
  destruct (parse_loop_source _ _ 0 0 _ _ _ (Nat.le_refl 0) Hsegs)
    as (t0 & rest & -> & Hsrc & Hrest).
  cbn [map snd Py.slice_from] in *. rewrite join_cons.
  pose proof (source_length_le rest) as Hle.
  assert (String.length text
          = String.length t0
            + String.length (Py.join (map segment_source rest))) as Hlen
    by by rewrite <- Hsrc, length_app.
  rewrite length_app. split; [lia|]. intros Heq.
  destruct rest as [|seg rest]; [by rewrite <- Hsrc|].
  pose proof (source_length_lt (seg :: rest) Hrest ltac:(done)). lia.
Qed.

(** X6: text in front of the first ESC is passed through: the segments of
    [p + t], for [p] without ESC, are those of [t] with [p] in front of the
    first text, and stripping [p + t] gives [p] and then [t] stripped. *)
Theorem strip_plain_prefix (p t : string) :
  Py.find p ESC 0 = None →
  parse_ansi_escapes (p +:+ t) = prepend_text p <$> parse_ansi_escapes t
  ∧ strip_ansi_escapes (p +:+ t) = (λ u, p +:+ u) <$> strip_ansi_escapes t.
Proof.
  intros Hp. pose proof (parse_plain_prefix p t Hp) as Hparse.
  split; [done|]. unfold strip_ansi_escapes. rewrite Hparse.
  destruct (parse_ansi_escapes t) as [segs|] eqn:Hsegs; [|done].
  destruct (parse_loop_first _ _ _ _ _ _ _ Hsegs) as (t0 & rest & ->).
  cbn [fmap option_fmap option_map mbind option_bind prepend_text map snd].
  by rewrite !join_cons, app_assoc.
Qed.

Lemma strip_plain_prefix_witness :
  parse_ansi_escapes ("abc" +:+ esc "[1mdef")
  = prepend_text "abc" <$> parse_ansi_escapes (esc "[1mdef")
  ∧ strip_ansi_escapes ("abc" +:+ esc "[1mdef")
    = (λ u, "abc" +:+ u) <$> strip_ansi_escapes (esc "[1mdef").
Proof. apply (strip_plain_prefix "abc" (esc "[1mdef")). reflexivity. Defined.

(** X7: a complete CSI sequence at the start of a text is removed: the
    stripped text is the one of what follows the sequence. *)
Theorem strip_leading_csi (pb ib : string) (c : ascii) (t : string) :
  all_in _b2 pb = true → all_in _b3 ib = true → _b4 c = true →
  strip_ansi_escapes (csi_text (pb, ib, String c EmptyString) +:+ t)
  = strip_ansi_escapes t.
Proof.
  intros Hpb Hib Hc.
  set (seq := csi_text (pb, ib, String c EmptyString)).
  assert (String.length seq = 3 + String.length pb + String.length ib) as Hlen.
  { unfold seq, csi_text. cbn [String.length fst snd].
    rewrite !length_app. cbn [String.length]. lia. }
  unfold strip_ansi_escapes, parse_ansi_escapes. rewrite parse_loop_S.
  change (Py.find (seq +:+ t) ESC 0) with (Some 0). cbv iota beta.
  change (Nat.leb (String.length (seq +:+ t)) (0 + 1)) with false.
  change (Py.item (seq +:+ t) (0 + 1)) with (Some "["%char).
  cbn [mbind option_bind]. change (Ascii.eqb "[" "[") with true.
  unfold seq at 1. rewrite parse_csi_leading by done. cbv iota beta.
  rewrite <- Hlen.
  rewrite <- (Nat.add_0_r (String.length seq)).
  rewrite (parse_loop_app _ seq t 0 0) by lia.
  rewrite length_app.
  replace (String.length seq + String.length t)
    with (S (String.length seq + String.length t - 1)) by lia.
  rewrite (parse_loop_enough _ (String.length t) t) by lia.
  pose proof (parse_loop_texts (S (String.length t)) t 0 0
                (Some "["%char) (Some (pb, ib, String c EmptyString))
                None None) as Htexts.
  destruct (parse_loop _ t 0 0 (Some _) _) as [segs|],
           (parse_loop _ t 0 0 None None) as [segs'|];
    cbn [fmap option_fmap option_map mbind option_bind] in *;
    simplify_eq; [|done].
  cbn [map snd]. by rewrite join_cons, Htexts.
Qed.

Lemma strip_leading_csi_witness :
  strip_ansi_escapes (csi_text ("1;31", EmptyString, "m") +:+ "red")
  = strip_ansi_escapes "red".
Proof.
  apply (strip_leading_csi "1;31" EmptyString "m" "red"); reflexivity.
Defined.

(** X8: an ESC that opens no CSI sequence, and the character after it, are
    passed through: when the character [c] after a leading ESC is not an
    opening bracket, or the pattern does not match there, stripping gives
    ESC, [c] and then the rest stripped. *)
Theorem strip_unrecognized_prefix (c : ascii) (t : string) :
  c ≠ "["%char ∨ parse_csi (String ESC (String c t)) 0 = None →
  strip_ansi_escapes (String ESC (String c t))
  = (λ u, String ESC (String c u)) <$> strip_ansi_escapes t.
Proof.
  intros Hun. set (p := String ESC (String c EmptyString)).
  unfold strip_ansi_escapes, parse_ansi_escapes. rewrite parse_loop_S.
  change (Py.find (String ESC (String c t)) ESC 0) with (Some 0).
  cbv iota beta.
  change (Nat.leb (String.length (String ESC (String c t))) (0 + 1))
    with false.
  change (Py.item (String ESC (String c t)) (0 + 1)) with (Some c).
  cbn [mbind option_bind].
  replace (if Ascii.eqb c "[" then parse_csi (String ESC (String c t)) 0
           else None)
    with (@None (csi_args * nat)).
  2: { destruct Hun as [Hc%Ascii.eqb_neq | Hcsi]; [by rewrite Hc|].
       by destruct (Ascii.eqb c "["). }
  change (String.length (String ESC (String c t)))
    with (S (S (String.length t))).
  rewrite (parse_loop_prepend _ _ 0 (0 + 2)) by lia.
  change (Py.slice (String ESC (String c t)) 0 (0 + 2)) with p.
  change (String ESC (String c t)) with (p +:+ t).
  rewrite (parse_loop_app _ p t 0 0) by lia.
  rewrite (parse_loop_enough _ (String.length t) t) by lia.
  destruct (parse_loop _ t 0 0 None None) as [segs|] eqn:Hsegs; [|done].
  destruct (parse_loop_first _ _ _ _ _ _ _ Hsegs) as (t0 & rest & ->).
  cbn [fmap option_fmap option_map mbind option_bind prepend_text map snd].
  by rewrite !join_cons.
Qed.

Lemma strip_unrecognized_prefix_witness :
  strip_ansi_escapes (String ESC (String "]" "title"))
  = (λ u, String ESC (String "]" u)) <$> strip_ansi_escapes "title".
Proof.
  apply (strip_unrecognized_prefix "]" "title"). left. by vm_compute.
Defined.

(** ** The SGR interpreter, continued *)

Section interpreter_more.

Implicit Types (D : DefaultAttr) (attr : gmap string value).
Implicit Types (param_iter : list string).

Lemma default_dict_ok D : dict_ok (default_dict D).
Proof.
  split; [by eexists|]. split; [by eexists|].
  intros key v Hkv Hfg Hbg. unfold default_dict in Hkv.
  repeat (apply lookup_insert_Some in Hkv as [[<- <-]|[_ Hkv]];
          [first [done | split; [unfold URWID_MODS; set_solver | by eexists]]|]).
  apply lookup_singleton_Some in Hkv as [<- <-].
  split; [unfold URWID_MODS; set_solver | by eexists].
Qed.

Lemma dict_ok_fg attr colour :
  dict_ok attr → dict_ok (<["fg" := VStr colour]> attr).
Proof.
  intros (Hfg & Hbg & Hrest). split; [by simplify_map_eq; eexists|].
  split; [by simplify_map_eq|].
  intros key v Hkv ? ?. rewrite lookup_insert_ne in Hkv by done. eauto.
Qed.

Lemma dict_ok_bg attr colour :
  dict_ok attr → dict_ok (<["bg" := VStr colour]> attr).
Proof.
  intros (Hfg & Hbg & Hrest). split; [by simplify_map_eq|].
  split; [by simplify_map_eq; eexists|].
  intros key v Hkv ? ?. rewrite lookup_insert_ne in Hkv by done. eauto.
Qed.

Lemma dict_ok_flag attr mod_ b :
  mod_ ∈ URWID_MODS → dict_ok attr → dict_ok (<[mod_ := VBool b]> attr).
Proof.
  intros Hmod (Hfg & Hbg & Hrest).
  assert (mod_ ≠ "fg" ∧ mod_ ≠ "bg") as [? ?].
  { unfold URWID_MODS in Hmod. rewrite !elem_of_cons, elem_of_nil in Hmod.
    destruct Hmod as [->|[->|[->|[->|[->|[->|[]]]]]]]; by split. }
  split; [by rewrite lookup_insert_ne|]. split; [by rewrite lookup_insert_ne|].
  intros key v Hkv ? ?.
  apply lookup_insert_Some in Hkv as [[<- <-]|[_ Hkv]]; eauto.
Qed.

Lemma ECODES_dict_ok param changes attr :
  ECODES !! param = Some changes → dict_ok attr → dict_ok (changes ∪ attr).
Proof.
  intros Hcode%elem_of_list_to_map_2 Hattr.
  repeat (apply elem_of_cons in Hcode as [Hcode|Hcode]);
    try (by apply elem_of_nil in Hcode);
    simplify_eq; rewrite <- insert_union_singleton_l;
    first [by apply dict_ok_fg | by apply dict_ok_bg
          | apply dict_ok_flag; [unfold URWID_MODS; set_solver | done]].
Qed.

Lemma set_color_dict_ok param attr_value attr :
  dict_ok attr → dict_ok (set_color param attr_value attr).
Proof.
  intros Hattr. unfold set_color.
  repeat case_match; try done; rewrite <- insert_union_singleton_l;
    first [by apply dict_ok_fg | by apply dict_ok_bg].
Qed.

Lemma set_color_58 attr_value attr : set_color "58" attr_value attr = attr.
Proof. reflexivity. Qed.

(** Every value of the table is truthy. *)
Lemma ECODES_keeps_active param changes attr mod_ :
  ECODES !! param = Some changes → mod_active attr mod_ = true →
  mod_active (changes ∪ attr) mod_ = true.
Proof.
  intros Hcode%elem_of_list_to_map_2 Hactive. unfold mod_active in *.
  repeat (apply elem_of_cons in Hcode as [Hcode|Hcode]);
    try (by apply elem_of_nil in Hcode);
    simplify_eq; rewrite <- insert_union_singleton_l, lookup_insert;
    by case_decide.
Qed.

Lemma set_color_keeps_active param attr_value attr mod_ :
  mod_active attr mod_ = true →
  mod_active (set_color param attr_value attr) mod_ = true.
Proof.
  intros Hactive. unfold set_color.
  destruct (negb _ && negb (String.eqb attr_value EmptyString)) eqn:Hcond;
    [|done].
  apply andb_true_iff in Hcond as [_ Hvalue].
  unfold mod_active in *. rewrite <- insert_union_singleton_l, lookup_insert.
  case_decide; [|done]. done.
Qed.

(** A property kept by the table codes and by the colour updates holds
    after any parameter list without a reset in it. *)
Lemma consume_params_invariant_no_reset D (P : gmap string value → Prop) :
  (∀ param changes attr,
     ECODES !! param = Some changes → P attr → P (changes ∪ attr)) →
  (∀ param attr_value attr, P attr → P (set_color param attr_value attr)) →
  ∀ param_iter attr,
    EmptyString ∉ param_iter → "0" ∉ param_iter →
    P attr → P (consume_params D param_iter attr).
Proof.
  intros Hcodes Hcolor param_iter.
  induction param_iter as [param_iter IH] using (induction_ltof1 _ length).
  unfold ltof in IH. intros attr He H0 Hattr.
  destruct param_iter as [|param param_iter]; [done|].
  rewrite consume_params_cons.
  destruct (String.eqb_spec param EmptyString) as [->|]; [set_solver|].
  destruct (String.eqb_spec param "0") as [->|]; [set_solver|].
  cbn [orb].
  destruct (ECODES !! param) as [changes|] eqn:Hcode;
    [apply IH; cbn [length]; eauto; set_solver|].
  destruct (bool_decide _); [|apply IH; cbn [length]; eauto; set_solver].
  destruct param_iter as [|color_type param_iter]; [done|].
  destruct (String.eqb color_type "5");
    [destruct param_iter as [|color_index param_iter]; [done|];
     apply IH; cbn [length]; eauto with lia; set_solver|].
  destruct (String.eqb color_type "2");
    [|apply IH; cbn [length]; eauto with lia; set_solver].
  destruct param_iter as [|r [|g [|b param_iter]]]; try done.
  apply IH; cbn [length]; eauto with lia; set_solver.
Qed.

(** The parameters that take no argument can be processed one list after
    the other. *)
Lemma consume_params_app D param_iter param_iter' attr :
  Forall (λ param, param ∉ ["38"; "48"; "58"]) param_iter →
  consume_params D (param_iter ++ param_iter') attr
  = consume_params D param_iter' (consume_params D param_iter attr).
Proof.
  intros Hsimple. revert attr.
  induction Hsimple as [|param param_iter Hparam _ IH]; intros attr; [done|].
  rewrite <- app_comm_cons, !consume_params_cons.
  destruct (_ || _); [apply IH|].
  destruct (ECODES !! param); [apply IH|].
  rewrite bool_decide_eq_false_2 by done. apply IH.
Qed.

Lemma split_nonempty sep s : Py.split sep s ≠ [].
Proof. induction s as [|a s IH]; simpl; repeat case_match; done. Qed.

(** [(a + sep + b).split(sep) == a.split(sep) + b.split(sep)] *)
Lemma split_app sep a b :
  Py.split sep (a +:+ String sep b) = Py.split sep a ++ Py.split sep b.
Proof.
  induction a as [|x a IH]; simpl.
  - by rewrite Ascii.eqb_refl.
  - destruct (Ascii.eqb x sep); [by rewrite IH|]. rewrite IH.
    pose proof (split_nonempty sep a). by destruct (Py.split sep a).
Qed.

End interpreter_more.

(** X9: the dictionary of attributes is always well formed.  The one the
    parse starts from holds both colours as strings and nothing else but
    style flags as booleans, and [update_attr] keeps it so for every
    sequence, well formed or not. *)
Theorem dictionary_well_formed (D : DefaultAttr) :
  dict_ok (default_dict D)
  ∧ ∀ pb ib fb attr,
      dict_ok attr → dict_ok (update_attr D pb ib fb attr).
Proof.
  split; [apply default_dict_ok|].
  intros pb ib fb attr Hattr. unfold update_attr. case_match; [|done].
  apply consume_params_invariant;
    eauto using default_dict_ok, ECODES_dict_ok, set_color_dict_ok.
Qed.

(** X10: the underline colour is read and dropped.  The parameter 58 takes
    its colour type and the index or the three components that follow like
    38 and 48 do, changes nothing in the dictionary, and the loop goes on
    after them. *)
Theorem underline_color_ignored
    (D : DefaultAttr) (n r g b : string) (param_iter : list string)
    (attr : gmap string value) :
  consume_params D ("58" :: "5" :: n :: param_iter) attr
  = consume_params D param_iter attr
  ∧ consume_params D ("58" :: "2" :: r :: g :: b :: param_iter) attr
    = consume_params D param_iter attr.
Proof.
  split; rewrite consume_params_extended by set_solver;
    cbn [String.eqb Ascii.eqb Bool.eqb andb]; by rewrite set_color_58.
Qed.

(** X11: a truecolor parameter with a component that is not an integer is
    consumed with its three components and changes nothing; the loop goes on
    with the parameters after them. *)
Theorem malformed_rgb_ignored
    (D : DefaultAttr) (param r g b : string) (param_iter : list string)
    (attr : gmap string value) :
  param ∈ ["38"; "48"; "58"] →
  int r = None ∨ int g = None ∨ int b = None →
  consume_params D (param :: "2" :: r :: g :: b :: param_iter) attr
  = consume_params D param_iter attr.
Proof.
  intros Hparam Hbad. rewrite consume_params_extended by done.
  cbn [String.eqb Ascii.eqb Bool.eqb andb].
  replace (rgb_value r g b) with EmptyString; [by rewrite set_color_empty|].
  unfold rgb_value. destruct Hbad as [-> | [Hg | Hb]]; [done|..].
  - rewrite Hg. by destruct (int r).
  - rewrite Hb. by destruct (int r), (int g).
Qed.

Lemma malformed_rgb_ignored_witness :
  let D := mkDefaultAttr "default" "default" false false in
  consume_params D ["38"; "2"; "10"; "1:2"; "30"; "1"] (default_dict D)
  = consume_params D ["1"] (default_dict D).
Proof.
  intros D.
  apply (malformed_rgb_ignored D "38" "10" "1:2" "30" ["1"] (default_dict D)).
  - apply (bool_decide_unpack _). by vm_compute.
  - right. left. reflexivity.
Defined.

(** X12: parameters that take no argument compose.  When no parameter of
    [a] is 38, 48 or 58, the sequence with the parameters [a;b] does what the
    sequence with [a] followed by the sequence with [b] does; and with a
    reset as last parameter the outcome is the default dictionary, whatever
    the dictionary was. *)
Theorem parameters_compose
    (D : DefaultAttr) (a b ib : string) (attr : gmap string value) :
  Forall (λ param, param ∉ ["38"; "48"; "58"]) (params_of a) →
  update_attr D (a +:+ String ";" b) ib "m" attr
  = update_attr D b ib "m" (update_attr D a ib "m" attr)
  ∧ update_attr D (a +:+ ";0") ib "m" attr = default_dict D.
Proof.
  intros Hsimple.
  assert (∀ b', params_of (a +:+ String ";" b')
                = params_of a ++ params_of b') as Hsplit.
  { intros b'. unfold params_of. by rewrite split_app, map_app. }
  rewrite !update_attr_m, !Hsplit, !consume_params_app by done.
  split; [done|].
  change (params_of "0") with ["0"]. by rewrite consume_params_cons.
Qed.

Lemma parameters_compose_witness :
  let D := mkDefaultAttr "default" "default" false false in
  update_attr D ("1;31" +:+ String ";" "4") EmptyString "m" (default_dict D)
  = update_attr D "4" EmptyString "m"
      (update_attr D "1;31" EmptyString "m" (default_dict D))
  ∧ update_attr D ("1;31" +:+ ";0") EmptyString "m" (default_dict D)
    = default_dict D.
Proof.
  intros D.
  apply (parameters_compose D "1;31" "4" EmptyString (default_dict D)).
  change (params_of "1;31") with ["1"; "31"].
  repeat constructor; apply (bool_decide_unpack _); by vm_compute.
Defined.

(** X13: nothing but a reset turns a style off.  A key of the dictionary
    that is set (a flag that is on, a colour that is not empty) is still set
    after any sequence none of whose parameters is 0 or empty. *)
Theorem flags_persist
    (D : DefaultAttr) (pb ib fb mod_ : string) (attr : gmap string value) :
  "0" ∉ params_of pb →
  mod_active attr mod_ = true →
  mod_active (update_attr D pb ib fb attr) mod_ = true.
Proof.
  intros H0 Hactive. unfold update_attr. case_match; [|done].
  apply (consume_params_invariant_no_reset D
           (λ attr, mod_active attr mod_ = true));
    eauto using ECODES_keeps_active, set_color_keeps_active.
  unfold params_of. intros (v & Hv & _)%list_elem_of_fmap.
  destruct (String.eqb_spec v EmptyString); [done | congruence].
Qed.

Lemma flags_persist_witness :
  let D := mkDefaultAttr "default" "default" false false in
  mod_active
    (update_attr D "22;31;38;5;7" EmptyString "m"
       (<["bold" := VBool true]> (default_dict D)))
    "bold"
  = true.
Proof.
  intros D.
  apply (flags_persist D "22;31;38;5;7" EmptyString "m" "bold"
           (<["bold" := VBool true]> (default_dict D))).
  - apply (bool_decide_unpack _). by vm_compute.
  - reflexivity.
Defined.

(** X14: every code of the table sets one key, to a value that is truthy,
    and leaves the other keys as they are: a code either turns one style
    flag on or names one colour. *)
Theorem table_code_sets_one_key
    (D : DefaultAttr) (param : string) (changes : gmap string value) :
  ECODES !! param = Some changes →
  ∃ key v,
    changes = {[ key := v ]} ∧ truthy v = true
    ∧ (key ∈ URWID_MODS ∧ v = VBool true
       ∨ key ∈ ["fg"; "bg"] ∧ ∃ colour, v = VStr colour)
    ∧ ∀ param_iter attr,
        consume_params D (param :: param_iter) attr
        = consume_params D param_iter (<[key := v]> attr).
Proof.
  intros Hcode.
  assert (∀ param_iter attr,
    consume_params D (param :: param_iter) attr
    = consume_params D param_iter (changes ∪ attr)) as Hstep.
  { intros param_iter attr. rewrite consume_params_cons, Hcode.
    destruct (String.eqb_spec param EmptyString) as [->|]; [done|].
    by destruct (String.eqb_spec param "0") as [->|]. }
  apply elem_of_list_to_map_2 in Hcode.
  repeat (apply elem_of_cons in Hcode as [Hcode|Hcode]);
    try (by apply elem_of_nil in Hcode);
    injection Hcode as -> ->;
    eexists _, _; (split; [reflexivity|]); (split; [reflexivity|]);
    (split; [|intros; by rewrite Hstep, insert_union_singleton_l]);
    first [left; split; [apply (bool_decide_unpack _); by vm_compute | done]
          | right; split; [apply (bool_decide_unpack _); by vm_compute
                          | by eexists]].
Qed.

Lemma table_code_sets_one_key_witness :
  let D := mkDefaultAttr "default" "default" false false in
  ∃ key v,
    ({[ "fg" := VStr "dark red" ]} : gmap string value) = {[ key := v ]}
    ∧ truthy v = true
    ∧ (key ∈ URWID_MODS ∧ v = VBool true
       ∨ key ∈ ["fg"; "bg"] ∧ ∃ colour, v = VStr colour)
    ∧ ∀ param_iter attr,
        consume_params D ("31" :: param_iter) attr
        = consume_params D param_iter (<[key := v]> attr).
Proof.
  intros D.
  apply (table_code_sets_one_key D "31" {[ "fg" := VStr "dark red" ]}).
  by vm_compute.
Defined.

(** ** The run builder *)

Section run_builder_facts.

Context {Focus Spec : Type} `{Countable Spec}.
Implicit Types (AttrSpec : string → string → option Spec).
Implicit Types (D : DefaultAttr) (F : Focus) (pb : bool).
Implicit Types (st : @locals Focus Spec _ _) (segs : list segment).

Lemma join_app (l1 l2 : list string) :
  Py.join (l1 ++ l2) = Py.join l1 +:+ Py.join l2.
Proof.
  induction l1 as [|x l1 IH]; [done|].
  rewrite <- app_comm_cons, !join_cons, IH. by rewrite app_assoc.
Qed.

(** What the [for] loop adds to the runs and to the focus map. *)
Lemma for_segments_runs AttrSpec D F pb segs st st' :
  for_segments AttrSpec D F pb segs st = Some st' →
  ∃ new_runs,
    urwid_text st' = urwid_text st ++ new_runs
    ∧ Py.join (map snd new_runs) = Py.join (map (λ seg : segment, seg.2) segs)
    ∧ Forall (λ run : Spec * string,
                run.2 ≠ EmptyString
                ∧ ∃ fg bg, AttrSpec fg bg = Some run.1
                           ∧ (pb = false → bg = background D)) new_runs
    ∧ ∀ key, is_Some (urwid_focus st' !! key) →
             is_Some (urwid_focus st !! key)
             ∨ ∃ a t, key = Some a ∧ (a, t) ∈ new_runs.
Proof.
  revert st. induction segs as [|seg segs IH]; intros st.
  { intros [= <-]. exists []. rewrite app_nil_r. split_and!; auto. }
  cbn [for_segments].
  destruct (handle_segment AttrSpec D F pb st seg) as [st1|] eqn:Hst1;
    [|done].
  cbn [mbind option_bind]. intros Hrec.
  destruct (IH _ Hrec) as (runs' & Htext & Hjoin & Hruns & Hkeys).
  apply handle_segment_inv in Hst1 as (attr0 & _ & Hst1).
  apply append_themed_infix_inv in Hst1 as [_ Hst1].
  cbn [urwid_text urwid_focus] in Hst1.
  cbn [map]. rewrite join_cons.
  destruct Hst1
    as [[-> ->] | (Hne & fg & bg & a & Hcall & Hbg & Htext1 & Hfocus1)].
  - exists runs'. by split_and!.
  - exists ((a, seg.2) :: runs'). split_and!.
    + by rewrite Htext, Htext1, <- List.app_assoc.
    + cbn [map snd]. by rewrite join_cons, Hjoin.
    + constructor; [|done]. split; [done|]. by exists fg, bg.
    + intros key Hkey.
      destruct (Hkeys key Hkey) as [Hold | (a' & t & -> & Hin)].
      * rewrite Hfocus1, lookup_insert in Hold.
        case_decide as Heq; [|by left]. subst key. right.
        exists a, seg.2. split; [done | by left].
      * right. exists a', t. split; [done | by right].
Qed.

(** The outcome of a parse, with what the loop has added. *)
Lemma parse_escapes_to_urwid_runs AttrSpec D F pb text runs focus :
  parse_escapes_to_urwid AttrSpec D F pb text = Some (runs, focus) →
  ∃ segs,
    parse_ansi_escapes text = Some segs
    ∧ Py.join (map snd runs) = Py.join (map (λ seg : segment, seg.2) segs)
    ∧ Forall (λ run : Spec * string,
                run.2 ≠ EmptyString
                ∧ ∃ fg bg, AttrSpec fg bg = Some run.1
                           ∧ (pb = false → bg = background D)) runs
    ∧ focus_ok F {| urwid_text := runs; urwid_focus := focus;
                    attr := default_dict D |}
    ∧ ∀ key, is_Some (focus !! key) →
             key = None ∨ ∃ a t, key = Some a ∧ (a, t) ∈ runs.
Proof.
  unfold parse_escapes_to_urwid.
  destruct (final_locals AttrSpec D F pb text) as [st|] eqn:Hst; [|done].
  intros [= <- <-].
  pose proof (final_locals_focus _ _ _ _ _ _ Hst) as Hfocus.
  unfold final_locals in Hst.
  destruct (parse_ansi_escapes text) as [segs|]; [|done].
  cbn [mbind option_bind] in Hst.
  destruct (for_segments_runs _ _ _ _ _ _ _ Hst)
    as (runs & Htext & Hjoin & Hruns & Hkeys).
  cbn [initial_locals urwid_text urwid_focus app] in *.
  exists segs. rewrite Htext.
  split_and!; try done.
  - by rewrite <- Htext.
  - intros key Hkey. destruct (Hkeys key Hkey) as [Hold|]; [|by right].
    left. destruct Hold as [v Hv].
    by apply lookup_singleton_Some in Hv as [<- _].
Qed.

End run_builder_facts.

(** X15: the styled runs show the stripped text.  Whenever the parser
    returns, the texts of its runs, one after the other, are the text
    [strip_ansi_escapes] returns for the same input, for every default
    attribute and either setting of [parse_background]. *)
Theorem runs_text_is_stripped_text
    {Focus Spec : Type} `{Countable Spec}
    (AttrSpec : string → string → option Spec)
    (D : DefaultAttr) (F : Focus) (pb : bool) (text : string)
    (runs : list (Spec * string)) (focus : gmap (option Spec) Focus) :
  parse_escapes_to_urwid AttrSpec D F pb text = Some (runs, focus) →
  strip_ansi_escapes text = Some (Py.join (map snd runs)).
Proof.
  intros (segs & Hsegs & -> & _)%parse_escapes_to_urwid_runs.
  by apply strip_of_loop.
Qed.

Lemma runs_text_is_stripped_text_witness :
  let plain :=
    Urwid.mkSpec Urwid.Default [false; false; false; false; false; false]
                 Urwid.Default in
  let bold_red :=
    Urwid.mkSpec (Urwid.Basic 1) [true; false; false; false; false; false]
                 Urwid.Default in
  strip_ansi_escapes ("A" +:+ String ESC "[1;31mB" +:+ String ESC "[0mC")
  = Some (Py.join (map snd [(plain, "A"); (bold_red, "B"); (plain, "C")])).
Proof.
  intros plain bold_red.
  apply (runs_text_is_stripped_text Urwid.AttrSpec
           (mkDefaultAttr "default" "default" false false) tt true _ _
           (<[Some bold_red := tt]> (<[Some plain := tt]> {[None := tt]}))).
  reflexivity.
Defined.

(** X16: no run the parser returns has an empty text: the text between two
    sequences that touch, before a leading sequence or after a trailing one
    gives no run. *)
Theorem runs_never_empty
    {Focus Spec : Type} `{Countable Spec}
    (AttrSpec : string → string → option Spec)
    (D : DefaultAttr) (F : Focus) (pb : bool) (text : string)
    (runs : list (Spec * string)) (focus : gmap (option Spec) Focus) :
  parse_escapes_to_urwid AttrSpec D F pb text = Some (runs, focus) →
  Forall (λ run : Spec * string, run.2 ≠ EmptyString) runs.
Proof.
  intros (segs & _ & _ & Hruns & _)%parse_escapes_to_urwid_runs.
  eapply Forall_impl; [exact Hruns|]. by intros run [? _].
Qed.

Lemma runs_never_empty_witness :
  let bold :=
    Urwid.mkSpec Urwid.Default [true; false; false; false; false; false]
                 Urwid.Default in
  Forall (λ run : Urwid.spec * string, run.2 ≠ EmptyString) [(bold, "B")].
Proof.
  intros bold.
  apply (runs_never_empty Urwid.AttrSpec
           (mkDefaultAttr "default" "default" false false) tt true
           (String ESC "[0m" +:+ String ESC "[1mB" +:+ String ESC "[0m") _
           (<[Some bold := tt]> {[None := tt]})).
  reflexivity.
Defined.

(** X17: without [parse_background] the background never changes: every
    run the parser returns was built by [urwid.AttrSpec] on the background of
    [default_attr], whatever background colours the sequences of the text
    select. *)
Theorem background_kept_without_parse_background
    {Focus Spec : Type} `{Countable Spec}
    (AttrSpec : string → string → option Spec)
    (D : DefaultAttr) (F : Focus) (text : string)
    (runs : list (Spec * string)) (focus : gmap (option Spec) Focus) :
  parse_escapes_to_urwid AttrSpec D F false text = Some (runs, focus) →
  Forall (λ run : Spec * string,
            ∃ fg, AttrSpec fg (background D) = Some run.1) runs.
Proof.
  intros (segs & _ & _ & Hruns & _)%parse_escapes_to_urwid_runs.
  eapply Forall_impl; [exact Hruns|].
  intros run (_ & fg & bg & Hcall & Hbg). exists fg. by rewrite <- Hbg.
Qed.

Lemma background_kept_without_parse_background_witness :
  let red :=
    Urwid.mkSpec (Urwid.Basic 1) [false; false; false; false; false; false]
                 Urwid.Default in
  Forall (λ run : Urwid.spec * string,
            ∃ fg, Urwid.AttrSpec fg "default" = Some run.1) [(red, "B")].
Proof.
  intros red.
  apply (background_kept_without_parse_background Urwid.AttrSpec
           (mkDefaultAttr "default" "default" false false) tt
           (String ESC "[31;44mB") _
           (<[Some red := tt]> {[None := tt]})).
  reflexivity.
Defined.

(** X18: the keys of the focus map the parser returns are [None] and the
    attributes of the runs, no more and no less. *)
Theorem focus_map_keys
    {Focus Spec : Type} `{Countable Spec}
    (AttrSpec : string → string → option Spec)
    (D : DefaultAttr) (F : Focus) (pb : bool) (text : string)
    (runs : list (Spec * string)) (focus : gmap (option Spec) Focus) :
  parse_escapes_to_urwid AttrSpec D F pb text = Some (runs, focus) →
  ∀ key, is_Some (focus !! key)
         ↔ key = None ∨ ∃ a t, key = Some a ∧ (a, t) ∈ runs.
Proof.
  intros (segs & _ & _ & _ & Hfocus & Hkeys)%parse_escapes_to_urwid_runs key.
  split; [apply Hkeys|].
  destruct Hfocus as (Hnone & _ & Hruns). cbn [urwid_focus urwid_text] in *.
  intros [-> | (a & t & -> & Hin)]; [by eexists|].
  eexists. by eapply Hruns.
Qed.

Lemma focus_map_keys_witness :
  let h16 :=
    Urwid.mkSpec (Urwid.High 16) [false; false; false; false; false; false]
                 Urwid.Default in
  let focus : gmap (option Urwid.spec) unit :=
    <[Some h16 := tt]> {[None := tt]} in
  is_Some (focus !! Some h16)
  ↔ Some h16 = None
    ∨ ∃ a t, Some h16 = Some a ∧ (a, t) ∈ [(h16, "A"); (h16, "B")].
Proof.
  intros h16 focus.
  refine (focus_map_keys Urwid.AttrSpec
            (mkDefaultAttr "default" "default" false false) tt true
            (String ESC "[38;5;16mA" +:+ String ESC "[38;5;016mB")
            [(h16, "A"); (h16, "B")] focus _ (Some h16)).
  reflexivity.
Defined.



(** ** The callers in [alot/commands/thread.py] *)

Section thread_facts.

Implicit Types (s t : string) (l : list string).

(** Stripping a text all of whose ESC open a CSI sequence leaves no ESC. *)
Lemma strip_clean s :
  (∀ n, Py.item s n = Some ESC → is_Some (parse_csi s n)) →
  ∃ t, strip_ansi_escapes s = Some t ∧ Py.find t ESC 0 = None.
Proof.
  intros Hall. destruct (parse_ansi_escapes_total s) as [segs Hsegs].
  rewrite (strip_of_loop _ _ Hsegs). eexists; split; [done|].
  apply find_join_none, Forall_map.
  eapply parse_loop_clean; [|exact Hsegs]. intros n _. apply Hall.
Qed.

Lemma find_concat_none sep l c :
  Py.find sep c 0 = None → Forall (λ s, Py.find s c 0 = None) l →
  Py.find (String.concat sep l) c 0 = None.
Proof.
  intros Hsep Hl. induction Hl as [|s l Hs Hl IH]; [done|].
  destruct l as [|s' l]; [done|].
  change (String.concat sep (s :: s' :: l))
    with (s +:+ sep +:+ String.concat sep (s' :: l)).
  auto using find_none_app.
Qed.

End thread_facts.

(** X19: the References header of a reply is bounded.  It has at most ten
    entries and ends with the id of the message replied to; up to eight old
    references are all kept, in order; of more than eight the first and the
    last eight are kept; and no entry is made up. *)
Theorem reply_references_bounded
    (old_references : list string) (message_id : string) :
  let id := "<" +:+ message_id +:+ ">" in
  let references := reply_references old_references message_id in
  length references ≤ 10
  ∧ last references = Some id
  ∧ (length old_references ≤ 8 → references = old_references ++ [id])
  ∧ (8 < length old_references →
     length references = 10
     ∧ references
       = take 1 old_references
         ++ drop (length old_references - 8) old_references ++ [id])
  ∧ ∀ r, r ∈ references → r ∈ old_references ∨ r = id.
Proof.
  intros id references. unfold references, reply_references. fold id.
  destruct (Nat.ltb_spec 8 (length old_references)) as [Hlong|Hshort].
  - split_and!.
    + rewrite !List.length_app, length_take, length_drop. cbn [length]. lia.
    + apply last_snoc.
    + lia.
    + intros _. split; [|by rewrite <- List.app_assoc].
      rewrite !List.length_app, length_take, length_drop. cbn [length]. lia.
    + intros r [[Hr%subseteq_take|Hr%subseteq_drop]%elem_of_app
               |Hr%list_elem_of_singleton]%elem_of_app; auto.
  - replace (length old_references - 8) with 0 by lia. rewrite drop_0.
    split_and!.
    + rewrite List.length_app. cbn [length]. lia.
    + apply last_snoc.
    + done.
    + lia.
    + intros r [Hr|Hr%list_elem_of_singleton]%elem_of_app; auto.
Qed.

(** X20: with [strip_ansi], what is piped holds no ESC.  When every ESC of
    every string to pipe opens a complete CSI sequence and the separator
    holds no ESC, no payload holds one; there is one payload in all, or one
    for each string when they are piped separately. *)
Theorem piped_text_has_no_escape
    (separately : bool) (separator : string) (pipestrings : list string) :
  Py.find separator ESC 0 = None →
  Forall (λ s, ∀ n, Py.item s n = Some ESC → is_Some (parse_csi s n))
         pipestrings →
  ∃ payloads,
    pipe_payloads true separately separator pipestrings = Some payloads
    ∧ Forall (λ s, Py.find s ESC 0 = None) payloads
    ∧ length payloads = if separately then length pipestrings else 1.
Proof.
  intros Hsep Hall.
  assert (∃ stripped,
    mapM strip_ansi_escapes pipestrings = Some stripped
    ∧ Forall (λ s, Py.find s ESC 0 = None) stripped
    ∧ length stripped = length pipestrings) as (stripped & Hmap & Hclean & Hlen).
  { induction Hall as [|s l Hs _ (stripped & Hmap & Hclean & Hlen)].
    - by exists [].
    - destruct (strip_clean s Hs) as (t & Ht & Hfind).
      exists (t :: stripped). cbn [mapM]. rewrite Ht, Hmap.
      split; [done|]. split; [by constructor|]. cbn [length]. by rewrite Hlen. }
  unfold pipe_payloads. rewrite Hmap. cbn [mbind option_bind].
  eexists; split; [done|]. destruct separately; cbn [negb].
  - done.
  - split; [|done]. constructor; [|done]. by apply find_concat_none.
Qed.

Lemma piped_text_has_no_escape_witness :
  ∃ payloads,
    pipe_payloads true false (String "010" (String "010" EmptyString))
      [esc "[1mSubject" +:+ esc "[0m"; "body"] = Some payloads
    ∧ Forall (λ s, Py.find s ESC 0 = None) payloads
    ∧ length payloads = if false then length [esc "[1mSubject" +:+ esc "[0m"; "body"] else 1.
Proof.
  apply (piped_text_has_no_escape false
           (String "010" (String "010" EmptyString))
           [esc "[1mSubject" +:+ esc "[0m"; "body"]).
  - reflexivity.
  - repeat constructor; intros n;
      do 16 (destruct n as [|n]; [first [by vm_compute
                                        | intros _; vm_compute; eauto]|]);
      by vm_compute.
Defined.

(** ** Sequences that are not SGR *)

Section non_sgr_facts.

Context {Focus Spec : Type} `{Countable Spec}.
Implicit Types (AttrSpec : string → string → option Spec).
Implicit Types (D : DefaultAttr) (F : Focus) (pb : bool).
Implicit Types (st : @locals Focus Spec _ _) (segs : list segment).

(** As long as no sequence ends in m the dictionary stays the default one
    and every run is built from it. *)
Lemma for_segments_default AttrSpec D F pb segs st st' :
  Forall (λ seg : segment,
            ∀ pbs ib fb, seg.1.2 = Some (pbs, ib, fb) → fb ≠ "m") segs →
  attr st = default_dict D →
  for_segments AttrSpec D F pb segs st = Some st' →
  ∃ new_runs,
    urwid_text st' = urwid_text st ++ new_runs
    ∧ Forall (λ run : Spec * string,
                AttrSpec (themed D (foreground D)) (background D)
                = Some run.1) new_runs.
Proof.
  intros Hsegs. revert st.
  induction Hsegs as [|[[code args] infix] segs Hseg _ IH]; intros st Hattr.
  { intros [= <-]. exists []. by rewrite app_nil_r. }
  cbn [for_segments]. unfold handle_segment.
  destruct (if bool_decide (code = Some "["%char)
            then args ≫= λ '(pbs, ib, fb),
                   Some {| urwid_text := urwid_text st;
                           urwid_focus := urwid_focus st;
                           attr := update_attr D pbs ib fb (attr st) |}
            else Some st) as [st0|] eqn:Hst0; [|done].
  assert (urwid_text st0 = urwid_text st ∧ attr st0 = default_dict D)
    as [Htext0 Hattr0].
  { destruct (bool_decide _); [|by injection Hst0 as <-].
    destruct args as [[[pbs ib] fb]|]; [|done]. injection Hst0 as <-.
    split; [done|]. cbn [attr]. unfold update_attr.
    specialize (Hseg pbs ib fb eq_refl).
    by destruct (String.eqb_spec fb "m"). }
  cbn [mbind option_bind].
  destruct (String.eqb_spec infix EmptyString) as [->|Hne].
  - change (append_themed_infix AttrSpec D F pb st0 EmptyString)
      with (Some st0).
    cbn [mbind option_bind]. intros Hrec.
    destruct (IH _ Hattr0 Hrec) as (runs & Htext & Hruns).
    exists runs. by rewrite <- Htext0.
  - rewrite (append_themed_infix_run AttrSpec D F pb st0 infix
               (foreground D) (background D))
      by (by rewrite ?Hattr0).
    rewrite Hattr0, themed_by_default.
    replace (if pb then background D else background D) with (background D)
      by (by destruct pb).
    destruct (AttrSpec (themed D (foreground D)) (background D))
      as [a|] eqn:Hcall; [|done].
    cbn [mbind option_bind]. intros Hrec.
    apply IH in Hrec as (runs & Htext & Hruns); [|done].
    cbn [urwid_text] in Htext. exists ((a, infix) :: runs). split.
    + by rewrite Htext, Htext0, <- List.app_assoc.
    + by constructor.
Qed.

End non_sgr_facts.

(** X21: CSI sequences whose final byte is not m are taken out of the text
    and change no attribute: when no sequence the tokenizer finds in a text
    ends in m, every run the parser returns was built by [urwid.AttrSpec]
    on the foreground of [default_attr] with its flags and on its
    background. *)
Theorem non_sgr_sequences_change_nothing
    {Focus Spec : Type} `{Countable Spec}
    (AttrSpec : string → string → option Spec)
    (D : DefaultAttr) (F : Focus) (pb : bool)
    (text : string) (segs : list segment)
    (runs : list (Spec * string)) (focus : gmap (option Spec) Focus) :
  parse_ansi_escapes text = Some segs →
  Forall (λ seg : segment,
            ∀ pbs ib fb, seg.1.2 = Some (pbs, ib, fb) → fb ≠ "m") segs →
  parse_escapes_to_urwid AttrSpec D F pb text = Some (runs, focus) →
  Forall (λ run : Spec * string,
            AttrSpec (themed D (foreground D)) (background D) = Some run.1)
         runs.
Proof.
  intros Hsegs Hnon. unfold parse_escapes_to_urwid, final_locals.
  rewrite Hsegs. cbn [mbind option_bind].
  destruct (for_segments AttrSpec D F pb segs (initial_locals D F))
    as [st|] eqn:Hst; [|done].
  intros [= <- <-].
  destruct (for_segments_default AttrSpec D F pb segs (initial_locals D F) st
              Hnon eq_refl Hst) as (runs & Htext & Hruns).
  cbn [initial_locals urwid_text app] in Htext. by rewrite Htext.
Qed.

Lemma non_sgr_sequences_change_nothing_witness :
  let D := mkDefaultAttr "default" "default" false false in
  let plain :=
    Urwid.mkSpec Urwid.Default [false; false; false; false; false; false]
                 Urwid.Default in
  Forall (λ run : Urwid.spec * string,
            Urwid.AttrSpec (themed D (foreground D)) (background D)
            = Some run.1)
         [(plain, "abc"); (plain, "def")].
Proof.
  intros D plain.
  apply (non_sgr_sequences_change_nothing Urwid.AttrSpec D tt true
           (esc "[2Jabc" +:+ esc "[Hdef")
           [(None, None, EmptyString);
            (Some "["%char, Some ("2", EmptyString, "J"), "abc");
            (Some "["%char, Some (EmptyString, EmptyString, "H"), "def")]
           _ (<[Some plain := tt]> {[None := tt]})).
  - by vm_compute.
  - repeat constructor; intros pbs ib fb; cbn [fst snd]; by intros [= <- <- <-].
  - reflexivity.
Defined.
